(** * obsidian-plugin-format-prettier: the position codec and the format
      orchestrator of [src/main.ts]

    JavaScript strings are sequences of UTF-16 code units and [length],
    [slice], [split] and [lastIndexOf] count code units; a string is
    therefore a list of code units.  The numbers that the codec handles
    (line, ch, offsets, array indices) are integers well below 2^53, where
    JavaScript's arithmetic on doubles is exact; they are modelled in [Z]. *)

From Stdlib Require Import ZArith List Bool Lia String.
Import ListNotations.
Local Open Scope Z_scope.

(** ** Strings *)

(** A UTF-16 code unit. *)
Abbreviation codeunit := N (only parsing).
Definition jsstring := list codeunit.

(** The code unit of ["\n"]. *)
Definition NL : codeunit := 10%N.

(** [x.length], of a string or of an array. *)
Definition len {A : Type} (s : list A) : Z := Z.of_nat (List.length s).

(** [s === t] on strings. *)
Fixpoint jsstring_eqb (s t : jsstring) : bool :=
  match s, t with
  | [], [] => true
  | c :: s', d :: t' => N.eqb c d && jsstring_eqb s' t'
  | _, _ => false
  end.

(** [s.split("\n")]: the lines of [s], never an empty array. *)
Fixpoint split_nl (s : jsstring) : list jsstring :=
  match s with
  | [] => [[]]
  | c :: r =>
      if N.eqb c NL then [] :: split_nl r
      else match split_nl r with
           | l :: ls => (c :: l) :: ls
           | [] => [[c]]
           end
  end.

(** [s.slice(0, e)]: a negative [e] counts from the end, and the end is
    clamped to the string. *)
Definition slice0 (s : jsstring) (e : Z) : jsstring :=
  let to := if e <? 0 then Z.max (len s + e) 0 else Z.min e (len s) in
  firstn (Z.to_nat to) s.

(** [s.lastIndexOf(c)] for a one-unit search string: the greatest index
    that holds [c], or [-1]. *)
Fixpoint lastIndexOf (s : jsstring) (c : codeunit) : Z :=
  match s with
  | [] => -1
  | x :: r =>
      let k := lastIndexOf r c in
      if 0 <=? k then k + 1
      else if N.eqb x c then 0 else -1
  end.

(** [a.reduce(f, init)] with the callback's third argument, the index. *)
Fixpoint reduce_from {A B : Type} (f : B -> A -> Z -> B)
    (a : list A) (index : Z) (acc : B) : B :=
  match a with
  | [] => acc
  | x :: r => reduce_from f r (index + 1) (f acc x index)
  end.

Definition reduce {A B : Type} (f : B -> A -> Z -> B) (a : list A) (init : B) : B :=
  reduce_from f a 0 init.

(** ** Position codec *)

Record CursorPosition : Type := { line : Z; ch : Z }.

(** The callback of the [reduce] in [positionToCursorOffset]. *)
Definition offsetStep (p : CursorPosition) (pos : Z) (currLine : jsstring)
    (index : Z) : Z :=
  if index <? line p then pos + len currLine + 1
  else if index =? line p then pos + ch p
  else pos.

Definition positionToCursorOffset (code : jsstring) (p : CursorPosition) : Z :=
  reduce (offsetStep p) (split_nl code) 0.

Definition cursorOffsetToPosition (code : jsstring) (cursorOffset : Z)
    : CursorPosition :=
  let substring := slice0 code cursorOffset in
  let line := len (split_nl substring) - 1 in
  let indexOfLastLine := lastIndexOf substring NL in
  {| line := line; ch := cursorOffset - indexOfLastLine - 1 |}.

(** The buffer of the spec's first scenario, ["a\nbb\nccc"]. *)
Definition scenario1 : jsstring := [97; 10; 98; 98; 10; 99; 99; 99]%N.

(** ** Plugin settings and engine options *)

Inductive ProseWrap : Type := always | never | preserve.

Record PrettierPluginSettings : Type := {
  formatOnSave : bool;
  embeddedLanguageFormatting : bool;
  proseWrap : ProseWrap;
  printWidth : Z
}.

Definition DEFAULT_SETTINGS : PrettierPluginSettings :=
  {| formatOnSave := false;
     embeddedLanguageFormatting := false;
     proseWrap := preserve;
     printWidth := 80 |}.

(** [FormatKind.document = 0], [FormatKind.selection = 1]. *)
Inductive FormatKind : Type := document | selection.

Inductive EmbeddedLanguageFormatting : Type := auto | off.

(** What [getPrettierSettings] returns. *)
Record PrettierOptions : Type := {
  opt_embeddedLanguageFormatting : EmbeddedLanguageFormatting;
  opt_proseWrap : ProseWrap;
  opt_printWidth : Z;
  opt_useTabs : bool;
  opt_tabWidth : Z
}.

Inductive Plugin : Type :=
  babel | estree | html | yaml | ts | gql | markdown | postcss.

Definition prettierPlugins : list Plugin :=
  [babel; estree; html; yaml; ts; gql; markdown; postcss].

(** The object literal handed to the engine:
    [{ parser, plugins, cursorOffset?, ...this.getPrettierSettings() }].
    The spread adds keys that the literal does not have, so it is a field. *)
Record EngineOptions : Type := {
  parser : string;
  plugins : list Plugin;
  opt_cursorOffset : option Z;
  spread : PrettierOptions
}.

(** The value of the promise of [formatWithCursor]. *)
Record CursorResult : Type := { formatted : jsstring; cursorOffset : Z }.

(** ** The host *)

(** An editor handle of the host. *)
Definition Editor := nat.

Record ScrollInfo : Type := { left : Z; top : Z }.

(** A [MarkdownView]; the hook reads its [editor] through [?.] and tests
    it before use. *)
Record MarkdownView : Type := { view_editor : option Editor }.

(** The host application as the plugin uses it: its state and the calls
    of [Editor], [Workspace] and [Vault] that [main.ts] makes.  [getConfig]
    is taken at the two types the source casts it to ([GetConfig<boolean>]
    and [GetConfig<number>]); [None] is an absent value.  The pixel offsets
    of the scroll state are only passed from [getScrollInfo] to [scrollTo]. *)
Class Host : Type := {
  hstate : Type;
  h_getValue : Editor -> hstate -> jsstring;
  h_getCursor : Editor -> hstate -> CursorPosition;
  h_getScrollInfo : Editor -> hstate -> ScrollInfo;
  h_getSelection : Editor -> hstate -> jsstring;
  h_setValue : Editor -> jsstring -> hstate -> hstate;
  h_setCursor : Editor -> CursorPosition -> hstate -> hstate;
  h_scrollTo : Editor -> Z -> Z -> hstate -> hstate;
  h_replaceSelection : Editor -> jsstring -> hstate -> hstate;
  h_getActiveViewOfType : hstate -> option MarkdownView;
  h_getConfigBool : string -> hstate -> option bool;
  h_getConfigNum : string -> hstate -> option Z;
  h_save : hstate -> hstate
}.

(** Every call that leaves the plugin, in the order it is made. *)
Inductive Event : Type :=
| GetValue (e : Editor)
| GetCursor (e : Editor)
| GetScrollInfo (e : Editor)
| GetSelection (e : Editor)
| SetValue (e : Editor) (s : jsstring)
| SetCursor (e : Editor) (p : CursorPosition)
| ScrollTo (e : Editor) (x y : Z)
| ReplaceSelection (e : Editor) (s : jsstring)
| GetActiveViewOfType
| GetConfig (setting : string)
| PrettierFormatWithCursor (text : jsstring) (o : EngineOptions)
| PrettierFormat (text : jsstring) (o : EngineOptions)
| Save.

(** The calls that change an editor. *)
Definition mutates (ev : Event) : bool :=
  match ev with
  | SetValue _ _ | SetCursor _ _ | ScrollTo _ _ _ | ReplaceSelection _ _ => true
  | _ => false
  end.

(** The calls that read or write the cursor or the scroll state. *)
Definition touchesCursorOrScroll (ev : Event) : bool :=
  match ev with
  | GetCursor _ | SetCursor _ _ | GetScrollInfo _ | ScrollTo _ _ _ => true
  | _ => false
  end.

Definition isSave (ev : Event) : bool :=
  match ev with Save => true | _ => false end.

Definition countEvents (f : Event -> bool) (l : list Event) : nat :=
  List.length (filter f l).

(** The formatting engine: what the promise of each of its two entry points
    settles to, a rejection on the left. *)
Class Engine : Type := {
  JSError : Type;
  prettierFormatWithCursor : jsstring -> EngineOptions -> JSError + CursorResult;
  prettierFormat : jsstring -> EngineOptions -> JSError + jsstring
}.

(** ** The plugin *)

Section Plugin.

Context {host : Host} {engine : Engine}.

(** What a run of plugin code sees and changes: the host, [this.settings],
    and the calls made so far. *)
Record World : Type := {
  hostState : hstate;
  settings : PrettierPluginSettings;
  log : list Event
}.

(** Synchronous code. *)
Definition M (A : Type) : Type := World -> A * World.

Definition ret {A : Type} (a : A) : M A := fun w => (a, w).

Definition bind {A B : Type} (m : M A) (k : A -> M B) : M B :=
  fun w => let (a, w') := m w in k a w'.

(** A host call: its answer, its effect on the host, and its record. *)
Definition hostCall {A : Type} (ev : Event) (answer : hstate -> A)
    (effect : hstate -> hstate) : M A :=
  fun w => (answer (hostState w),
            {| hostState := effect (hostState w);
               settings := settings w;
               log := log w ++ [ev] |}).

Definition idState (s : hstate) : hstate := s.

Definition getValue (e : Editor) : M jsstring :=
  hostCall (GetValue e) (h_getValue e) idState.
Definition getCursor (e : Editor) : M CursorPosition :=
  hostCall (GetCursor e) (h_getCursor e) idState.
Definition getScrollInfo (e : Editor) : M ScrollInfo :=
  hostCall (GetScrollInfo e) (h_getScrollInfo e) idState.
Definition getSelection (e : Editor) : M jsstring :=
  hostCall (GetSelection e) (h_getSelection e) idState.
Definition setValue (e : Editor) (s : jsstring) : M unit :=
  hostCall (SetValue e s) (fun _ => tt) (h_setValue e s).
Definition setCursor (e : Editor) (p : CursorPosition) : M unit :=
  hostCall (SetCursor e p) (fun _ => tt) (h_setCursor e p).
Definition scrollTo (e : Editor) (x y : Z) : M unit :=
  hostCall (ScrollTo e x y) (fun _ => tt) (h_scrollTo e x y).
Definition replaceSelection (e : Editor) (s : jsstring) : M unit :=
  hostCall (ReplaceSelection e s) (fun _ => tt) (h_replaceSelection e s).
Definition getActiveViewOfType : M (option MarkdownView) :=
  hostCall GetActiveViewOfType h_getActiveViewOfType idState.
Definition getConfigBool (setting : string) : M (option bool) :=
  hostCall (GetConfig setting) (h_getConfigBool setting) idState.
Definition getConfigNum (setting : string) : M (option Z) :=
  hostCall (GetConfig setting) (h_getConfigNum setting) idState.
Definition emit (ev : Event) : M unit :=
  hostCall ev (fun _ => tt) idState.

Definition getSettings : M PrettierPluginSettings := fun w => (settings w, w).

(** [a ?? b]. *)
Definition nullish {A : Type} (a : option A) (b : A) : A :=
  match a with Some x => x | None => b end.

(** An [async] function of the plugin after its synchronous part: it has
    returned, or it is suspended at its one [await], on a promise of the
    engine, with the rest of its body.  There is no [try]: a rejection of
    the awaited promise rejects the function's own promise. *)
Inductive Task (A : Type) : Type :=
| Resolved (a : A)
| AwaitFormatWithCursor (text : jsstring) (o : EngineOptions)
    (k : CursorResult -> M A)
| AwaitFormat (text : jsstring) (o : EngineOptions) (k : jsstring -> M A).

Arguments Resolved {A} a.
Arguments AwaitFormatWithCursor {A} text o k.
Arguments AwaitFormat {A} text o k.

(** The awaited promise settles and the task runs to its end. *)
Definition settle {A : Type} (t : Task A) : M (JSError + A) :=
  match t with
  | Resolved a => ret (inr a)
  | AwaitFormatWithCursor text o k =>
      match prettierFormatWithCursor text o with
      | inl err => ret (inl err)
      | inr r => bind (k r) (fun a => ret (inr a))
      end
  | AwaitFormat text o k =>
      match prettierFormat text o with
      | inl err => ret (inl err)
      | inr r => bind (k r) (fun a => ret (inr a))
      end
  end.

(** [await f(...)]: what the caller of an async function observes when it
    awaits the promise and nothing else runs in between. *)
Definition awaited {A : Type} (m : M (Task A)) : M (JSError + A) :=
  bind m settle.

Notation "x <- m ;; k" := (bind m (fun x => k))
  (at level 61, m at next level, right associativity).
Notation "m ;;; k" := (bind m (fun _ => k))
  (at level 61, right associativity).

Definition getPrettierSettings : M PrettierOptions :=
  s <- getSettings ;;
  let embedded := if embeddedLanguageFormatting s then auto else off in
  useTabs <- getConfigBool "useTabs" ;;
  tabWidth <- getConfigNum "tabSize" ;;
  ret {| opt_embeddedLanguageFormatting := embedded;
         opt_proseWrap := proseWrap s;
         opt_printWidth := printWidth s;
         opt_useTabs := nullish useTabs false;
         opt_tabWidth := nullish tabWidth 4 |}.

(** The body of [formatDocument] after its [await]. *)
Definition applyDocument (editor : Editor) (text : jsstring) (r : CursorResult)
    : M unit :=
  if jsstring_eqb (formatted r) text then ret tt
  else
    scroll <- getScrollInfo editor ;;
    setValue editor (formatted r) ;;;
    setCursor editor (cursorOffsetToPosition (formatted r) (cursorOffset r)) ;;;
    scrollTo editor (left scroll) (top scroll).

Definition formatDocument (editor : Editor) : M (Task unit) :=
  text <- getValue editor ;;
  cursor <- getCursor editor ;;
  let position := positionToCursorOffset text cursor in
  opts <- getPrettierSettings ;;
  let o := {| parser := "markdown";
              plugins := prettierPlugins;
              opt_cursorOffset := Some position;
              spread := opts |} in
  emit (PrettierFormatWithCursor text o) ;;;
  ret (AwaitFormatWithCursor text o (applyDocument editor text)).

(** The body of [formatSelection] after its [await]. *)
Definition applySelection (editor : Editor) (text : jsstring) (r : jsstring)
    : M unit :=
  if jsstring_eqb r text then ret tt
  else replaceSelection editor r.

Definition formatSelection (editor : Editor) : M (Task unit) :=
  text <- getSelection editor ;;
  opts <- getPrettierSettings ;;
  let o := {| parser := "markdown";
              plugins := prettierPlugins;
              opt_cursorOffset := None;
              spread := opts |} in
  emit (PrettierFormat text o) ;;;
  ret (AwaitFormat text o (applySelection editor text)).

Definition format (kind : FormatKind) (editor : Editor) : M (Task unit) :=
  activeView <- getActiveViewOfType ;;
  match activeView with
  | Some _ =>
      match kind with
      | document => formatDocument editor
      | selection => formatSelection editor
      end
  | None => ret (Resolved tt)
  end.

(** A command callback of the host: it runs synchronously and may leave
    promises that nobody awaits; their tasks go on in later turns of the
    event loop. *)
Definition Callback : Type := M (list (Task unit)).

(** The host's own [editor:save-file] callback. *)
Definition hostSave : Callback :=
  hostCall Save (fun _ => []) h_save.

(** [saveCommandDefinition.callback]; [None] is a value that is not a
    function. *)
Record CommandDefinition : Type := { callback : option Callback }.

(** The arrow function that [hookIntoSaveCmd] installs around [save].  The
    promise of [this.format] is dropped, not awaited. *)
Definition wrappedSave (save : Callback) : Callback :=
  s <- getSettings ;;
  floating <-
    (if formatOnSave s then
       view <- getActiveViewOfType ;;
       match match view with Some v => view_editor v | None => None end with
       | Some editor => t <- format document editor ;; ret [t]
       | None => ret []
       end
     else ret []) ;;
  later <- save ;;
  ret (floating ++ later).

(** [hookIntoSaveCmd], on the entry of ["editor:save-file"] in the command
    table ([None] when [commands?.commands?.[...]] is undefined). *)
Definition hookIntoSaveCmd (saveCommandDefinition : option CommandDefinition)
    : option CommandDefinition :=
  match saveCommandDefinition with
  | Some def =>
      match callback def with
      | Some save => Some {| callback := Some (wrappedSave save) |}
      | None => Some def
      end
  | None => None
  end.

(** The tasks left by a callback run to their ends, in order. *)
Fixpoint settleAll (ts : list (Task unit)) : M (list (JSError + unit)) :=
  match ts with
  | [] => ret []
  | t :: rest =>
      r <- settle t ;;
      rs <- settleAll rest ;;
      ret (r :: rs)
  end.

(** One turn of the event loop on a command callback: the callback runs
    to its return, then the continuations of the promises it left. *)
Definition runCallback (cb : Callback) : M (list (JSError + unit)) :=
  ts <- cb ;; settleAll ts.

(** *** Vocabulary of the statements *)

(** The world [w] after calls [evs] that left the host in state [s]. *)
Definition after (w : World) (s : hstate) (evs : list Event) : World :=
  {| hostState := s; settings := settings w; log := log w ++ evs |}.

(** The options that [getPrettierSettings] computes in [w]. *)
Definition optionsOf (w : World) : PrettierOptions :=
  {| opt_embeddedLanguageFormatting :=
       if embeddedLanguageFormatting (settings w) then auto else off;
     opt_proseWrap := proseWrap (settings w);
     opt_printWidth := printWidth (settings w);
     opt_useTabs := nullish (h_getConfigBool "useTabs" (hostState w)) false;
     opt_tabWidth := nullish (h_getConfigNum "tabSize" (hostState w)) 4 |}.

(** The object that [formatDocument] hands to the engine in [w]. *)
Definition documentRequest (editor : Editor) (w : World) : EngineOptions :=
  {| parser := "markdown";
     plugins := prettierPlugins;
     opt_cursorOffset :=
       Some (positionToCursorOffset (h_getValue editor (hostState w))
               (h_getCursor editor (hostState w)));
     spread := optionsOf w |}.

(** The object that [formatSelection] hands to the engine in [w]. *)
Definition selectionRequest (w : World) : EngineOptions :=
  {| parser := "markdown";
     plugins := prettierPlugins;
     opt_cursorOffset := None;
     spread := optionsOf w |}.

(** The calls of [formatDocument] up to its [await]. *)
Definition documentReads (editor : Editor) (w : World) : list Event :=
  [GetValue editor; GetCursor editor; GetConfig "useTabs"; GetConfig "tabSize";
   PrettierFormatWithCursor (h_getValue editor (hostState w))
     (documentRequest editor w)].

(** The calls of [formatSelection] up to its [await]. *)
Definition selectionReads (editor : Editor) (w : World) : list Event :=
  [GetSelection editor; GetConfig "useTabs"; GetConfig "tabSize";
   PrettierFormat (h_getSelection editor (hostState w)) (selectionRequest w)].

(** The editor of the focused document view, as the hook looks it up. *)
Definition focusedEditor (w : World) : option Editor :=
  match h_getActiveViewOfType (hostState w) with
  | Some v => view_editor v
  | None => None
  end.

(** The calls of the wrapped save callback in front of [save()]. *)
Definition saveHookReads (w : World) : list Event :=
  if formatOnSave (settings w) then
    match focusedEditor w with
    | Some editor =>
        GetActiveViewOfType :: GetActiveViewOfType :: documentReads editor w
    | None => [GetActiveViewOfType]
    end
  else [].

(** The promises that the wrapped save callback leaves behind. *)
Definition saveHookFloating (w : World) : list (Task unit) :=
  if formatOnSave (settings w) then
    match focusedEditor w with
    | Some editor =>
        [AwaitFormatWithCursor (h_getValue editor (hostState w))
           (documentRequest editor w)
           (applyDocument editor (h_getValue editor (hostState w)))]
    | None => []
    end
  else [].

End Plugin.

Arguments Resolved {host A} a.
Arguments AwaitFormatWithCursor {host A} text o k.
Arguments AwaitFormat {host A} text o k.

(** The calls made behind the first [Save]. *)
Fixpoint behindSave (evs : list Event) : list Event :=
  match evs with
  | [] => []
  | Save :: rest => rest
  | _ :: rest => behindSave rest
  end.

(** No call changes an editor once the save action has run. *)
Definition editsPrecedeSave (evs : list Event) : bool :=
  negb (existsb mutates (behindSave evs)).

(** ** A small host and engine to run the plugin on

    One editor pane; like common editors it puts the caret at the start and
    scrolls to the top when its whole content is replaced, and leaves the
    caret behind the text that replaces a selection. *)
Module TestHost.

Record Pane : Type := {
  buffer : jsstring;
  cursor : CursorPosition;
  scroll : ScrollInfo;
  selFrom : nat;
  selTo : nat;
  focused : bool;
  useTabs : option bool;
  tabSize : option Z;
  saved : list jsstring
}.

Definition selectionOf (p : Pane) : jsstring :=
  firstn (selTo p - selFrom p) (skipn (selFrom p) (buffer p)).

Definition withValue (s : jsstring) (p : Pane) : Pane :=
  {| buffer := s; cursor := {| line := 0; ch := 0 |};
     scroll := {| left := 0; top := 0 |};
     selFrom := 0; selTo := 0; focused := focused p;
     useTabs := useTabs p; tabSize := tabSize p; saved := saved p |}.

Definition withCursor (c : CursorPosition) (p : Pane) : Pane :=
  {| buffer := buffer p; cursor := c; scroll := scroll p;
     selFrom := selFrom p; selTo := selTo p; focused := focused p;
     useTabs := useTabs p; tabSize := tabSize p; saved := saved p |}.

Definition withScroll (x y : Z) (p : Pane) : Pane :=
  {| buffer := buffer p; cursor := cursor p;
     scroll := {| left := x; top := y |};
     selFrom := selFrom p; selTo := selTo p; focused := focused p;
     useTabs := useTabs p; tabSize := tabSize p; saved := saved p |}.

Definition withSelection (s : jsstring) (p : Pane) : Pane :=
  let b := firstn (selFrom p) (buffer p) ++ s ++ skipn (selTo p) (buffer p) in
  let e := (selFrom p + List.length s)%nat in
  {| buffer := b; cursor := cursorOffsetToPosition b (Z.of_nat e);
     scroll := scroll p;
     selFrom := e; selTo := e; focused := focused p;
     useTabs := useTabs p; tabSize := tabSize p; saved := saved p |}.

Definition written (p : Pane) : Pane :=
  {| buffer := buffer p; cursor := cursor p; scroll := scroll p;
     selFrom := selFrom p; selTo := selTo p; focused := focused p;
     useTabs := useTabs p; tabSize := tabSize p;
     saved := buffer p :: saved p |}.

Definition pane : Host :=
  {| hstate := Pane;
     h_getValue := fun _ => buffer;
     h_getCursor := fun _ => cursor;
     h_getScrollInfo := fun _ => scroll;
     h_getSelection := fun _ => selectionOf;
     h_setValue := fun _ => withValue;
     h_setCursor := fun _ => withCursor;
     h_scrollTo := fun _ => withScroll;
     h_replaceSelection := fun _ => withSelection;
     h_getActiveViewOfType := fun p =>
       if focused p then Some {| view_editor := Some 0%nat |} else None;
     h_getConfigBool := fun k p =>
       if String.eqb k "useTabs" then useTabs p else None;
     h_getConfigNum := fun k p =>
       if String.eqb k "tabSize" then tabSize p else None;
     h_save := written |}.

(** A toy engine: it rejects a text that starts with ['!'], and otherwise
    puts [">"] and a space in front of the text and moves the cursor along. *)
Definition rejects (text : jsstring) : bool :=
  match text with c :: _ => N.eqb c 33 | [] => false end.

Definition quote : Engine :=
  {| JSError := string;
     prettierFormatWithCursor := fun text o =>
       if rejects text then inl "SyntaxError"%string
       else inr {| formatted := 62%N :: 32%N :: text;
                   cursorOffset :=
                     match opt_cursorOffset o with Some c => c + 2 | None => -1 end |};
     prettierFormat := fun text o =>
       if rejects text then inl "SyntaxError"%string
       else inr (62%N :: 32%N :: text) |}.

(** An engine that has nothing to change. *)
Definition tidy : Engine :=
  {| JSError := string;
     prettierFormatWithCursor := fun text o =>
       inr {| formatted := text;
              cursorOffset := match opt_cursorOffset o with Some c => c | None => -1 end |};
     prettierFormat := fun text o => inr text |}.

(** The pane on the spec's first scenario, caret at line 1, column 1, the
    selection on ["bb"]. *)
Definition pane0 : Pane :=
  {| buffer := scenario1; cursor := {| line := 1; ch := 1 |};
     scroll := {| left := 0; top := 120 |};
     selFrom := 2; selTo := 4; focused := true;
     useTabs := None; tabSize := None; saved := [] |}.

(** A pane whose text, ["!a"], the toy engine rejects; all of it selected. *)
Definition pane1 : Pane :=
  {| buffer := [33; 97]%N; cursor := {| line := 0; ch := 1 |};
     scroll := {| left := 0; top := 0 |};
     selFrom := 0; selTo := 2; focused := true;
     useTabs := Some true; tabSize := Some 2; saved := [] |}.

Definition world1 : @World pane :=
  @Build_World pane pane1 DEFAULT_SETTINGS [].

Definition world0 (fos : bool) : @World pane :=
  @Build_World pane pane0
    {| formatOnSave := fos;
       embeddedLanguageFormatting := false;
       proseWrap := preserve;
       printWidth := 80 |}
    [].

(** One turn of the event loop on the wrapped save callback, with
    format-on-save enabled and the toy engine. *)
Definition savedTurn : @World pane :=
  snd (@runCallback pane quote (@wrappedSave pane (@hostSave pane))
         (world0 true)).

End TestHost.

(** ** Vocabulary of the statements *)

(** The number of newline characters of a string. *)
Definition newlines (s : jsstring) : nat := count_occ N.eq_dec s NL.

(** [i] is the index of the last newline of [s]. *)
Definition lastNewlineAt (s : jsstring) (i : Z) : Prop :=
  0 <= i /\ nth_error s (Z.to_nat i) = Some NL /\
  forall j, (Z.to_nat i < j)%nat -> nth_error s j <> Some NL.

(** A position of the buffer: its line is an index into the lines of the
    buffer and its column lies within that line, the end included. *)
Definition validPosition (b : jsstring) (p : CursorPosition) : bool :=
  (0 <=? line p) &&
  match nth_error (split_nl b) (Z.to_nat (line p)) with
  | Some l => (0 <=? ch p) && (ch p <=? len l)
  | None => false
  end.

(** [Number.MAX_SAFE_INTEGER]: up to it, and at [2^53] itself, integers
    are doubles and their sums and differences are exact. *)
Definition MAX_SAFE_INTEGER : Z := 2 ^ 53 - 1.

(** The offset at which line [l] of the buffer starts: the lengths of the
    lines in front of it, each with its newline. *)
Definition lineStart (b : jsstring) (l : Z) : Z :=
  fold_right (fun ln acc => len ln + 1 + acc) 0
    (firstn (Z.to_nat l) (split_nl b)).

(** The last line of the buffer. *)
Definition lastLine (b : jsstring) : jsstring := last (split_nl b) [].

(** What the orchestrator expects of an editor of the host: a value, a
    cursor or a scroll state that is set is the one read back, and setting
    the cursor or the scroll state leaves what was set before it alone. *)
Record EditorLaws {host : Host} (e : Editor) : Prop := {
  value_set : forall s st, h_getValue e (h_setValue e s st) = s;
  value_cursor : forall p st,
    h_getValue e (h_setCursor e p st) = h_getValue e st;
  value_scroll : forall x y st,
    h_getValue e (h_scrollTo e x y st) = h_getValue e st;
  cursor_set : forall p st, h_getCursor e (h_setCursor e p st) = p;
  cursor_scroll : forall x y st,
    h_getCursor e (h_scrollTo e x y st) = h_getCursor e st;
  scroll_set : forall x y st,
    h_getScrollInfo e (h_scrollTo e x y st) = {| left := x; top := y |}
}.

(** The small host with no document view in focus. *)
Definition blurredWorld : @World TestHost.pane :=
  @Build_World TestHost.pane
    {| TestHost.buffer := scenario1;
       TestHost.cursor := {| line := 1; ch := 1 |};
       TestHost.scroll := {| left := 0; top := 120 |};
       TestHost.selFrom := 2; TestHost.selTo := 4;
       TestHost.focused := false;
       TestHost.useTabs := None; TestHost.tabSize := None;
       TestHost.saved := [] |}
    {| formatOnSave := true;
       embeddedLanguageFormatting := false;
       proseWrap := preserve;
       printWidth := 80 |}
    [].

(** * Properties of the position codec *)

Lemma len_nil {A : Type} : len (@nil A) = 0.
Proof. reflexivity. Qed.

Lemma len_cons {A : Type} (x : A) (s : list A) : len (x :: s) = len s + 1.
Proof. unfold len. simpl List.length. lia. Qed.

Lemma len_nonneg {A : Type} (s : list A) : 0 <= len s.
Proof. unfold len. lia. Qed.

Lemma jsstring_eqb_eq (s t : jsstring) : jsstring_eqb s t = true <-> s = t.
Proof.
  revert t. induction s as [|c s IH]; intros [|d t]; simpl; split;
    try congruence; try reflexivity.
  - intros H. apply andb_true_iff in H. destruct H as [Hc Hs].
    apply N.eqb_eq in Hc. apply IH in Hs. congruence.
  - intros H. injection H as -> ->. apply andb_true_iff. split.
    + apply N.eqb_refl.
    + now apply IH.
Qed.

Lemma jsstring_eqb_refl (s : jsstring) : jsstring_eqb s s = true.
Proof. now apply jsstring_eqb_eq. Qed.

(** *** [split] *)

Lemma split_nl_cons (s : jsstring) : exists l ls, split_nl s = l :: ls.
Proof.
  induction s as [|c r [l [ls IH]]]; simpl.
  - eauto.
  - destruct (N.eqb c NL); [eauto | rewrite IH; eauto].
Qed.

Lemma split_nl_newline (r : jsstring) : split_nl (NL :: r) = [] :: split_nl r.
Proof. reflexivity. Qed.

Lemma split_nl_other (c : codeunit) (r l : jsstring) (ls : list jsstring) :
  c <> NL -> split_nl r = l :: ls -> split_nl (c :: r) = (c :: l) :: ls.
Proof.
  intros Hc Hr. simpl. apply N.eqb_neq in Hc. now rewrite Hc, Hr.
Qed.

(** The array of lines has one element more than the string has newlines. *)
Lemma length_split_nl (s : jsstring) :
  List.length (split_nl s) = S (count_occ N.eq_dec s NL).
Proof.
  induction s as [|c r IH]; [reflexivity|].
  destruct (N.eq_dec c NL) as [->|Hc].
  - rewrite split_nl_newline. simpl List.length. rewrite IH.
    rewrite count_occ_cons_eq; reflexivity.
  - destruct (split_nl_cons r) as [l [ls Hr]].
    rewrite (split_nl_other c r l ls Hc Hr).
    rewrite count_occ_cons_neq by assumption.
    rewrite Hr in IH. simpl List.length in *. exact IH.
Qed.

(** *** [lastIndexOf] *)

Lemma lastIndexOf_lower (s : jsstring) (c : codeunit) : -1 <= lastIndexOf s c.
Proof.
  induction s as [|x r IH]; simpl; [lia|].
  destruct (0 <=? lastIndexOf r c) eqn:E; [apply Z.leb_le in E; lia|].
  destruct (N.eqb x c); lia.
Qed.

Lemma lastIndexOf_upper (s : jsstring) (c : codeunit) : lastIndexOf s c < len s.
Proof.
  induction s as [|x r IH]; [cbn; lia|].
  rewrite len_cons. simpl.
  pose proof (len_nonneg r).
  destruct (0 <=? lastIndexOf r c); [lia|].
  destruct (N.eqb x c); lia.
Qed.

(** [lastIndexOf] finds nothing exactly when the string has no occurrence. *)
Lemma lastIndexOf_absent (s : jsstring) (c : codeunit) :
  lastIndexOf s c = -1 <-> count_occ N.eq_dec s c = 0%nat.
Proof.
  induction s as [|x r IH]; simpl; [tauto|].
  pose proof (lastIndexOf_lower r c) as Hl.
  destruct (0 <=? lastIndexOf r c) eqn:E.
  - apply Z.leb_le in E. split; [lia|].
    intros H. destruct (N.eq_dec x c); [discriminate|].
    apply IH in H. lia.
  - apply Z.leb_gt in E. assert (Hr : lastIndexOf r c = -1) by lia.
    apply IH in Hr. destruct (N.eq_dec x c) as [->|Hx].
    + rewrite N.eqb_refl. split; [lia | discriminate].
    + apply N.eqb_neq in Hx. rewrite Hx. tauto.
Qed.

(** What [lastIndexOf] returns when it finds something: an index that
    holds the unit, with no occurrence behind it. *)
Lemma lastIndexOf_found (s : jsstring) (c : codeunit) (k : Z) :
  lastIndexOf s c = k -> 0 <= k ->
  nth_error s (Z.to_nat k) = Some c /\
  forall j, (Z.to_nat k < j)%nat -> nth_error s j <> Some c.
Proof.
  revert k. induction s as [|x r IH]; intros k; simpl.
  - lia.
  - destruct (0 <=? lastIndexOf r c) eqn:E.
    + apply Z.leb_le in E. intros <- _.
      destruct (IH _ eq_refl E) as [Hn Hj].
      replace (Z.to_nat (lastIndexOf r c + 1)) with (S (Z.to_nat (lastIndexOf r c))) by lia.
      split; [exact Hn|].
      intros [|j] Hlt; [lia|]. simpl. apply Hj. lia.
    + apply Z.leb_gt in E.
      assert (Hr : count_occ N.eq_dec r c = 0%nat).
      { apply lastIndexOf_absent. pose proof (lastIndexOf_lower r c). lia. }
      destruct (N.eqb x c) eqn:Ex; [|lia].
      apply N.eqb_eq in Ex. subst x. intros <- _. simpl.
      split; [reflexivity|].
      intros [|j] Hlt; [lia|]. simpl. intros Hc.
      apply nth_error_In in Hc.
      apply (count_occ_not_In N.eq_dec) in Hr. contradiction.
Qed.

(** *** The fold of [positionToCursorOffset] *)

(** Lines behind the target line leave the accumulator alone. *)
Lemma reduce_past (p : CursorPosition) (ls : list jsstring) (i acc : Z) :
  line p < i -> reduce_from (offsetStep p) ls i acc = acc.
Proof.
  revert i acc. induction ls as [|l ls IH]; intros i acc Hi; simpl.
  - reflexivity.
  - rewrite IH by lia. unfold offsetStep.
    destruct (i <? line p) eqn:E1; [apply Z.ltb_lt in E1; lia|].
    destruct (i =? line p) eqn:E2; [apply Z.eqb_eq in E2; lia|].
    reflexivity.
Qed.

(** The fold only ever adds to its accumulator. *)
Lemma reduce_acc (p : CursorPosition) (ls : list jsstring) (i acc d : Z) :
  reduce_from (offsetStep p) ls i (acc + d)
  = reduce_from (offsetStep p) ls i acc + d.
Proof.
  revert i acc. induction ls as [|l ls IH]; intros i acc; simpl.
  - reflexivity.
  - rewrite <- IH. f_equal. unfold offsetStep.
    destruct (i <? line p); [lia|]. destruct (i =? line p); lia.
Qed.

(** Starting the indices one later is looking for the line before. *)
Lemma reduce_shift (p : CursorPosition) (ls : list jsstring) (i acc : Z) :
  reduce_from (offsetStep p) ls (i + 1) acc
  = reduce_from (offsetStep {| line := line p - 1; ch := ch p |}) ls i acc.
Proof.
  revert i acc. induction ls as [|l ls IH]; intros i acc; simpl.
  - reflexivity.
  - rewrite IH. f_equal. unfold offsetStep. simpl.
    destruct (i + 1 <? line p) eqn:E1, (i <? line p - 1) eqn:E2;
      try reflexivity;
      try (apply Z.ltb_lt in E1; apply Z.ltb_ge in E2; lia);
      try (apply Z.ltb_ge in E1; apply Z.ltb_lt in E2; lia).
    destruct (i + 1 =? line p) eqn:E3, (i =? line p - 1) eqn:E4;
      try reflexivity;
      try (apply Z.eqb_eq in E3; apply Z.eqb_neq in E4; lia);
      try (apply Z.eqb_neq in E3; apply Z.eqb_eq in E4; lia).
Qed.

(** [positionToCursorOffset], unit by unit. *)
Lemma toOffset_nil (p : CursorPosition) :
  positionToCursorOffset [] p
  = if 0 <? line p then 1 else if 0 =? line p then ch p else 0.
Proof.
  unfold positionToCursorOffset, reduce, split_nl, reduce_from, offsetStep.
  change (len (@nil codeunit)) with 0.
  destruct (0 <? line p); [reflexivity|].
  destruct (0 =? line p); lia.
Qed.

Lemma toOffset_newline (r : jsstring) (p : CursorPosition) :
  positionToCursorOffset (NL :: r) p
  = if 0 <? line p
    then 1 + positionToCursorOffset r {| line := line p - 1; ch := ch p |}
    else if 0 =? line p then ch p else 0.
Proof.
  unfold positionToCursorOffset, reduce. rewrite split_nl_newline.
  simpl reduce_from. unfold offsetStep at 2.
  change (len (@nil codeunit)) with 0.
  destruct (0 <? line p) eqn:E1.
  - change (0 + 0 + 1) with (0 + 1). change 1 with (0 + 1) at 1.
    rewrite reduce_acc, reduce_shift. lia.
  - apply Z.ltb_ge in E1. apply reduce_past. lia.
Qed.

Lemma toOffset_other (c : codeunit) (r : jsstring) (p : CursorPosition) :
  c <> NL ->
  positionToCursorOffset (c :: r) p
  = if 0 <? line p then 1 + positionToCursorOffset r p
    else positionToCursorOffset r p.
Proof.
  intros Hc. unfold positionToCursorOffset, reduce.
  destruct (split_nl_cons r) as [l [ls Hr]].
  rewrite (split_nl_other c r l ls Hc Hr), Hr. simpl reduce_from.
  assert (Hstep : offsetStep p 0 (c :: l) 0
                  = if 0 <? line p then offsetStep p 0 l 0 + 1
                    else offsetStep p 0 l 0).
  { unfold offsetStep. rewrite len_cons. destruct (0 <? line p); lia. }
  rewrite Hstep. destruct (0 <? line p).
  - rewrite reduce_acc. lia.
  - reflexivity.
Qed.

(** On line 0 the offset is the column. *)
Lemma toOffset_line0 (b : jsstring) (c : Z) :
  positionToCursorOffset b {| line := 0; ch := c |} = c.
Proof.
  induction b as [|x r IH].
  - rewrite toOffset_nil. reflexivity.
  - destruct (N.eq_dec x NL) as [->|Hx].
    + rewrite toOffset_newline. reflexivity.
    + rewrite toOffset_other by assumption. simpl. exact IH.
Qed.

(** *** [cursorOffsetToPosition], unit by unit *)

Lemma slice0_prefix (s : jsstring) (o : Z) :
  0 <= o <= len s -> slice0 s o = firstn (Z.to_nat o) s.
Proof.
  intros H. unfold slice0.
  destruct (o <? 0) eqn:E; [apply Z.ltb_lt in E; lia|].
  rewrite Z.min_l by lia. reflexivity.
Qed.

Lemma slice0_cons (c : codeunit) (r : jsstring) (o : Z) :
  0 < o <= len (c :: r) -> slice0 (c :: r) o = c :: slice0 r (o - 1).
Proof.
  intros H. rewrite len_cons in H.
  rewrite !slice0_prefix by (rewrite ?len_cons; lia).
  replace (Z.to_nat o) with (S (Z.to_nat (o - 1))) by lia. reflexivity.
Qed.

Lemma toPosition_zero (b : jsstring) :
  cursorOffsetToPosition b 0 = {| line := 0; ch := 0 |}.
Proof.
  unfold cursorOffsetToPosition.
  rewrite slice0_prefix by (pose proof (len_nonneg b); lia).
  reflexivity.
Qed.

Lemma toPosition_line (b : jsstring) (o : Z) :
  line (cursorOffsetToPosition b o)
  = Z.of_nat (count_occ N.eq_dec (slice0 b o) NL).
Proof.
  unfold cursorOffsetToPosition, len. simpl.
  rewrite length_split_nl. lia.
Qed.

Lemma toPosition_newline (r : jsstring) (o : Z) :
  0 < o <= len (NL :: r) ->
  cursorOffsetToPosition (NL :: r) o
  = {| line := line (cursorOffsetToPosition r (o - 1)) + 1;
       ch := ch (cursorOffsetToPosition r (o - 1)) |}.
Proof.
  intros H. unfold cursorOffsetToPosition. rewrite slice0_cons by assumption.
  set (s := slice0 r (o - 1)). simpl line. simpl ch.
  unfold len. rewrite !length_split_nl.
  rewrite count_occ_cons_eq by reflexivity.
  f_equal; [lia|].
  simpl lastIndexOf. pose proof (lastIndexOf_lower s NL).
  destruct (0 <=? lastIndexOf s NL) eqn:E.
  - lia.
  - apply Z.leb_gt in E. lia.
Qed.

Lemma toPosition_other (c : codeunit) (r : jsstring) (o : Z) :
  c <> NL -> 0 < o <= len (c :: r) ->
  cursorOffsetToPosition (c :: r) o
  = if line (cursorOffsetToPosition r (o - 1)) =? 0
    then {| line := 0; ch := ch (cursorOffsetToPosition r (o - 1)) + 1 |}
    else cursorOffsetToPosition r (o - 1).
Proof.
  intros Hc H. rewrite (toPosition_line r).
  unfold cursorOffsetToPosition. rewrite slice0_cons by assumption.
  set (s := slice0 r (o - 1)). simpl ch.
  unfold len. rewrite !length_split_nl.
  rewrite count_occ_cons_neq by assumption.
  simpl lastIndexOf. pose proof (lastIndexOf_lower s NL).
  pose proof (lastIndexOf_absent s NL) as Ha.
  apply N.eqb_neq in Hc. rewrite Hc.
  destruct (Z.of_nat (count_occ N.eq_dec s NL) =? 0) eqn:E0.
  - apply Z.eqb_eq in E0.
    assert (Hk : lastIndexOf s NL = -1) by (apply Ha; lia).
    rewrite Hk. change (0 <=? -1) with false. cbv iota. f_equal; lia.
  - apply Z.eqb_neq in E0.
    destruct (0 <=? lastIndexOf s NL) eqn:E.
    + f_equal; lia.
    + apply Z.leb_gt in E.
      assert (Hk : lastIndexOf s NL = -1) by lia. apply Ha in Hk. lia.
Qed.

Lemma toPosition_line_nonneg (b : jsstring) (o : Z) :
  0 <= line (cursorOffsetToPosition b o).
Proof. rewrite toPosition_line. lia. Qed.

(** *** Valid positions, unit by unit *)

Lemma validPosition_nil (p : CursorPosition) :
  validPosition [] p = true -> line p = 0 /\ ch p = 0.
Proof.
  unfold validPosition. simpl split_nl. intros H.
  apply andb_true_iff in H. destruct H as [Hl H]. apply Z.leb_le in Hl.
  destruct (Z.to_nat (line p)) as [|[|n]] eqn:E; simpl in H; try discriminate.
  apply andb_true_iff in H. destruct H as [H1 H2].
  apply Z.leb_le in H1. apply Z.leb_le in H2. cbn in H2. lia.
Qed.

Lemma validPosition_newline (r : jsstring) (p : CursorPosition) :
  validPosition (NL :: r) p = true ->
  (line p = 0 /\ ch p = 0) \/
  (0 < line p /\ validPosition r {| line := line p - 1; ch := ch p |} = true).
Proof.
  unfold validPosition. rewrite split_nl_newline. intros H.
  apply andb_true_iff in H. destruct H as [Hl H]. apply Z.leb_le in Hl.
  destruct (Z.to_nat (line p)) as [|n] eqn:E; simpl in H.
  - left. apply andb_true_iff in H. destruct H as [H1 H2].
    apply Z.leb_le in H1. apply Z.leb_le in H2. cbn in H2. lia.
  - right. split; [lia|]. simpl line. simpl ch.
    replace (Z.to_nat (line p - 1)) with n by lia.
    rewrite H. replace (0 <=? line p - 1) with true; [reflexivity|].
    symmetry. apply Z.leb_le. lia.
Qed.

Lemma validPosition_other (c : codeunit) (r : jsstring) (p : CursorPosition) :
  c <> NL -> validPosition (c :: r) p = true ->
  (line p = 0 /\
   (ch p = 0 \/
    (0 < ch p /\ validPosition r {| line := 0; ch := ch p - 1 |} = true))) \/
  (0 < line p /\ validPosition r p = true).
Proof.
  intros Hc. unfold validPosition.
  destruct (split_nl_cons r) as [l [ls Hr]].
  rewrite (split_nl_other c r l ls Hc Hr), Hr. intros H.
  apply andb_true_iff in H. destruct H as [Hl H]. apply Z.leb_le in Hl.
  destruct (Z.to_nat (line p)) as [|n] eqn:E; simpl in H.
  - left. split; [lia|].
    apply andb_true_iff in H. destruct H as [H1 H2].
    apply Z.leb_le in H1. apply Z.leb_le in H2. rewrite len_cons in H2.
    destruct (Z.eq_dec (ch p) 0) as [H0|H0]; [now left|right].
    split; [lia|]. simpl.
    apply andb_true_iff. split; apply Z.leb_le; lia.
  - right. split; [lia|]. simpl. rewrite H.
    replace (0 <=? line p) with true; [reflexivity|].
    symmetry. apply Z.leb_le. lia.
Qed.

(** A valid position has an offset inside the buffer, and the offset leads
    back to the position. *)
Lemma valid_offset_inverse (b : jsstring) :
  forall p, validPosition b p = true ->
  0 <= positionToCursorOffset b p <= len b /\
  cursorOffsetToPosition b (positionToCursorOffset b p) = p.
Proof.
  induction b as [|x r IH]; intros [ln cl] Hv.
  - apply validPosition_nil in Hv. simpl in Hv. destruct Hv as [-> ->].
    split; [cbn; lia | reflexivity].
  - destruct (N.eq_dec x NL) as [->|Hx].
    + apply validPosition_newline in Hv. simpl in Hv.
      rewrite toOffset_newline. simpl line. simpl ch.
      rewrite len_cons. pose proof (len_nonneg r) as Hr.
      destruct Hv as [[-> ->]|[Hl Hv]].
      * simpl. split; [lia|]. apply toPosition_zero.
      * replace (0 <? ln) with true by (symmetry; apply Z.ltb_lt; lia).
        destruct (IH _ Hv) as [Hrange Hback].
        split; [lia|].
        rewrite toPosition_newline by (rewrite len_cons; lia).
        replace (1 + positionToCursorOffset r {| line := ln - 1; ch := cl |} - 1)
          with (positionToCursorOffset r {| line := ln - 1; ch := cl |}) by lia.
        rewrite Hback. simpl. f_equal. lia.
    + apply (validPosition_other x r _ Hx) in Hv. simpl in Hv.
      rewrite toOffset_other by assumption. simpl line.
      rewrite len_cons. pose proof (len_nonneg r) as Hr.
      destruct Hv as [[-> [->|[Hc Hv]]]|[Hl Hv]].
      * simpl. rewrite toOffset_line0. split; [lia|]. apply toPosition_zero.
      * simpl. rewrite toOffset_line0.
        destruct (IH _ Hv) as [Hrange Hback]. rewrite toOffset_line0 in *.
        split; [lia|].
        rewrite toPosition_other by (rewrite ?len_cons; assumption || lia).
        rewrite Hback. simpl. f_equal. lia.
      * replace (0 <? ln) with true by (symmetry; apply Z.ltb_lt; lia).
        destruct (IH _ Hv) as [Hrange Hback].
        split; [lia|].
        rewrite toPosition_other by (rewrite ?len_cons; assumption || lia).
        replace (1 + positionToCursorOffset r {| line := ln; ch := cl |} - 1)
          with (positionToCursorOffset r {| line := ln; ch := cl |}) by lia.
        rewrite Hback. simpl.
        destruct (ln =? 0) eqn:E; [apply Z.eqb_eq in E; lia | reflexivity].
Qed.

(** *** The last newline *)

(** A string has at most one last newline, and it is where [lastIndexOf]
    says. *)
Lemma lastNewlineAt_lastIndexOf (s : jsstring) (i : Z) :
  lastNewlineAt s i -> lastIndexOf s NL = i.
Proof.
  intros (Hi & Hn & Hafter).
  pose proof (lastIndexOf_lower s NL) as Hlow.
  destruct (Z.eq_dec (lastIndexOf s NL) (-1)) as [Hk|Hk].
  - apply lastIndexOf_absent in Hk.
    apply nth_error_In in Hn.
    apply (count_occ_not_In N.eq_dec) in Hk. contradiction.
  - destruct (lastIndexOf_found s NL _ eq_refl) as [Hn' Hafter']; [lia|].
    destruct (Z.lt_trichotomy (lastIndexOf s NL) i) as [Hlt|[Heq|Hgt]].
    + exfalso. apply (Hafter' (Z.to_nat i)); [lia | exact Hn].
    + exact Heq.
    + exfalso. apply (Hafter (Z.to_nat (lastIndexOf s NL))); [lia | exact Hn'].
Qed.

Lemma lastIndexOf_lastNewlineAt (s : jsstring) :
  newlines s <> 0%nat -> lastNewlineAt s (lastIndexOf s NL).
Proof.
  intros Hn. pose proof (lastIndexOf_lower s NL) as Hlow.
  assert (Hk : 0 <= lastIndexOf s NL).
  { destruct (Z.eq_dec (lastIndexOf s NL) (-1)) as [E|E]; [|lia].
    apply lastIndexOf_absent in E. contradiction. }
  destruct (lastIndexOf_found s NL _ eq_refl Hk) as [H1 H2].
  repeat split; assumption.
Qed.

(** * Theorems on the position codec *)

(** C1: for every buffer [b] and every offset [o] with
    [0 <= o <= length b], the position of [o] has offset [o]:
    [positionToCursorOffset b (cursorOffsetToPosition b o) = o]. *)
Theorem offset_roundtrip (b : jsstring) (o : Z) :
  0 <= o <= len b ->
  positionToCursorOffset b (cursorOffsetToPosition b o) = o.
Proof.
  revert o. induction b as [|x r IH]; intros o Ho.
  - cbn in Ho. assert (o = 0) by lia. subst o. reflexivity.
  - destruct (Z.eq_dec o 0) as [->|Hpos].
    { rewrite toPosition_zero. apply toOffset_line0. }
    rewrite len_cons in Ho.
    assert (Hin : 0 < o <= len (x :: r)) by (rewrite len_cons; lia).
    specialize (IH (o - 1) ltac:(lia)).
    pose proof (toPosition_line_nonneg r (o - 1)) as Hline.
    destruct (cursorOffsetToPosition r (o - 1)) as [ln cl] eqn:Eq.
    simpl in Hline.
    destruct (N.eq_dec x NL) as [->|Hx].
    + rewrite toPosition_newline, Eq by assumption. simpl.
      rewrite toOffset_newline. simpl line. simpl ch.
      replace (0 <? ln + 1) with true by (symmetry; apply Z.ltb_lt; lia).
      replace (ln + 1 - 1) with ln by lia. lia.
    + rewrite toPosition_other, Eq by assumption. simpl line. simpl ch.
      destruct (ln =? 0) eqn:E.
      * apply Z.eqb_eq in E. subst ln.
        rewrite toOffset_line0 in *. lia.
      * apply Z.eqb_neq in E.
        rewrite toOffset_other by assumption. simpl line.
        replace (0 <? ln) with true by (symmetry; apply Z.ltb_lt; lia).
        lia.
Qed.

Lemma offset_roundtrip_witness :
  0 <= 5 <= len scenario1 /\
  positionToCursorOffset scenario1 (cursorOffsetToPosition scenario1 5) = 5.
Proof.
  assert (H : 0 <= 5 <= len scenario1) by (cbn; lia).
  split; [exact H | exact (offset_roundtrip scenario1 5 H)].
Defined.

(** C2: for every buffer [b] and every position [p] whose line is an index
    into the lines of [b] and whose column is between 0 and the length of
    that line, the end included, the offset of [p] has position [p]:
    [cursorOffsetToPosition b (positionToCursorOffset b p) = p]. *)
Theorem position_roundtrip (b : jsstring) (p : CursorPosition) :
  validPosition b p = true ->
  cursorOffsetToPosition b (positionToCursorOffset b p) = p.
Proof.
  intros Hv. exact (proj2 (valid_offset_inverse b p Hv)).
Qed.

Lemma position_roundtrip_witness :
  validPosition scenario1 {| line := 2; ch := 3 |} = true /\
  cursorOffsetToPosition scenario1
    (positionToCursorOffset scenario1 {| line := 2; ch := 3 |})
  = {| line := 2; ch := 3 |}.
Proof.
  split; [reflexivity|].
  exact (position_roundtrip scenario1 {| line := 2; ch := 3 |} eq_refl).
Defined.

(** C7, as the spec states it, fails: on ["a\nbb\nccc"] the position
    [{line:1, column:1}] does not have offset 4, and offset 4 is not the
    position [{line:1, column:1}]. *)
Lemma scenario1_not_offset_4 :
  ~ (positionToCursorOffset scenario1 {| line := 1; ch := 1 |} = 4 /\
     cursorOffsetToPosition scenario1 4 = {| line := 1; ch := 1 |}).
Proof.
  intros [H _]. vm_compute in H. discriminate H.
Qed.

(** C7, amended: on ["a\nbb\nccc"] the position [{line:1, column:1}] has
    offset 3 (2 for ["a\n"], 1 within ["bb"]), and offset 3 is the position
    [{line:1, column:1}]; offset 4 is the position [{line:1, column:2}]. *)
Theorem scenario1_codec :
  positionToCursorOffset scenario1 {| line := 1; ch := 1 |} = 3 /\
  cursorOffsetToPosition scenario1 3 = {| line := 1; ch := 1 |} /\
  cursorOffsetToPosition scenario1 4 = {| line := 1; ch := 2 |}.
Proof.
  repeat split; reflexivity.
Qed.

(** C8: for every buffer [b] and every offset [o] with
    [0 <= o <= length b], the line of [cursorOffsetToPosition b o] is the
    number of newlines of the prefix [b[0..o)], and its column is [o] minus
    the index of the last newline of the prefix minus one: the prefix has a
    last newline as soon as it has a newline, and without one the position
    is [{line: 0, column: o}]. *)
Theorem toPosition_counts_newlines (b : jsstring) (o : Z) :
  0 <= o <= len b ->
  let prefix := firstn (Z.to_nat o) b in
  line (cursorOffsetToPosition b o) = Z.of_nat (newlines prefix) /\
  (forall i, lastNewlineAt prefix i ->
     ch (cursorOffsetToPosition b o) = o - i - 1) /\
  (newlines prefix <> 0%nat -> exists i, lastNewlineAt prefix i) /\
  (newlines prefix = 0%nat ->
     cursorOffsetToPosition b o = {| line := 0; ch := o |}).
Proof.
  intros Ho prefix.
  assert (Hs : slice0 b o = prefix) by (apply slice0_prefix; exact Ho).
  assert (Hline : line (cursorOffsetToPosition b o) = Z.of_nat (newlines prefix)).
  { rewrite toPosition_line, Hs. reflexivity. }
  split; [exact Hline|]. split; [|split].
  - intros i Hi. apply lastNewlineAt_lastIndexOf in Hi.
    unfold cursorOffsetToPosition. simpl. rewrite Hs, Hi. reflexivity.
  - intros Hn. exists (lastIndexOf prefix NL).
    now apply lastIndexOf_lastNewlineAt.
  - intros Hn.
    assert (Hk : lastIndexOf prefix NL = -1) by (now apply lastIndexOf_absent).
    destruct (cursorOffsetToPosition b o) as [ln cl] eqn:E.
    simpl in Hline. f_equal; [lia|].
    unfold cursorOffsetToPosition in E. rewrite Hs, Hk in E.
    injection E as _ <-. lia.
Qed.

Lemma toPosition_counts_newlines_witness :
  0 <= 6 <= len scenario1 /\
  line (cursorOffsetToPosition scenario1 6) = 2 /\
  ch (cursorOffsetToPosition scenario1 6) = 6 - 4 - 1.
Proof.
  assert (H : 0 <= 6 <= len scenario1) by (cbn; lia).
  split; [exact H|].
  destruct (toPosition_counts_newlines scenario1 6 H) as (Hl & Hc & _).
  split; [exact Hl|].
  apply Hc. repeat split; [lia|].
  intros [|[|[|[|[|[|[|j]]]]]]] Hj; cbn in Hj |- *; try lia; discriminate.
Defined.

(** C9: for every buffer [b] and every position [p] whose line is at least
    the number of lines of [b], [positionToCursorOffset b p] is
    [length b + 1], whatever the column of [p]: an offset beyond the end of
    the buffer. *)
Theorem toOffset_line_beyond (b : jsstring) (p : CursorPosition) :
  len (split_nl b) <= line p ->
  positionToCursorOffset b p = len b + 1 /\ len b < positionToCursorOffset b p.
Proof.
  intros H.
  assert (E : positionToCursorOffset b p = len b + 1); [|split; [exact E | lia]].
  revert p H. induction b as [|x r IH]; intros p H.
  - rewrite toOffset_nil. cbn in H.
    replace (0 <? line p) with true by (symmetry; apply Z.ltb_lt; lia).
    reflexivity.
  - unfold len in H. rewrite length_split_nl in H.
    rewrite len_cons.
    destruct (N.eq_dec x NL) as [->|Hx].
    + rewrite count_occ_cons_eq in H by reflexivity.
      rewrite toOffset_newline.
      replace (0 <? line p) with true by (symmetry; apply Z.ltb_lt; lia).
      rewrite IH; [lia|]. simpl line.
      unfold len. rewrite length_split_nl. lia.
    + rewrite count_occ_cons_neq in H by assumption.
      rewrite toOffset_other by assumption.
      replace (0 <? line p) with true by (symmetry; apply Z.ltb_lt; lia).
      rewrite IH; [lia|].
      unfold len. rewrite length_split_nl. lia.
Qed.

Lemma toOffset_line_beyond_witness :
  len (split_nl scenario1) <= 3 /\
  positionToCursorOffset scenario1 {| line := 3; ch := 7 |} = 9.
Proof.
  assert (H : len (split_nl scenario1) <= line {| line := 3; ch := 7 |})
    by (cbn; lia).
  split; [cbn; lia|].
  exact (proj1 (toOffset_line_beyond scenario1 _ H)).
Defined.

(** * Properties of the orchestrator *)

Section PluginFacts.

Context {host : Host} {engine : Engine}.

Lemma after_nothing (w : World) : after w (hostState w) [] = w.
Proof. destruct w. unfold after. simpl. now rewrite app_nil_r. Qed.

Lemma after_after (w : World) (s s' : hstate) (evs evs' : list Event) :
  after (after w s evs) s' evs' = after w s' (evs ++ evs').
Proof. unfold after. simpl. now rewrite app_assoc. Qed.

Lemma hostCall_run {A : Type} (ev : Event) (answer : hstate -> A)
    (effect : hstate -> hstate) (w : World) :
  hostCall ev answer effect w
  = (answer (hostState w), after w (effect (hostState w)) [ev]).
Proof. reflexivity. Qed.

Lemma bind_run {A B : Type} (m : M A) (k : A -> M B) (w : World) :
  bind m k w = k (fst (m w)) (snd (m w)).
Proof. unfold bind. destruct (m w). reflexivity. Qed.

(** Unfolds a run of plugin code into its host calls. *)
Ltac run :=
  unfold bind, ret, getValue, getCursor, getScrollInfo, getSelection,
    setValue, setCursor, scrollTo, replaceSelection, getActiveViewOfType,
    getConfigBool, getConfigNum, emit, getSettings, idState;
  rewrite ?hostCall_run; cbn [fst snd hostState settings after];
  rewrite ?after_after; cbn [app].

(** [getPrettierSettings] asks the host for both values at every call and
    changes nothing. *)
Lemma getPrettierSettings_run (w : World) :
  getPrettierSettings w
  = (optionsOf w,
     after w (hostState w) [GetConfig "useTabs"; GetConfig "tabSize"]).
Proof.
  unfold getPrettierSettings. run. reflexivity.
Qed.

Lemma optionsOf_after (w : World) (evs : list Event) :
  optionsOf (after w (hostState w) evs) = optionsOf w.
Proof. reflexivity. Qed.

(** [formatDocument] up to its [await]: it reads the buffer and the cursor,
    asks for the options, calls the engine and is suspended. *)
Lemma formatDocument_sync (editor : Editor) (w : World) :
  formatDocument editor w
  = (AwaitFormatWithCursor (h_getValue editor (hostState w))
       (documentRequest editor w)
       (applyDocument editor (h_getValue editor (hostState w))),
     after w (hostState w) (documentReads editor w)).
Proof.
  unfold formatDocument. run. rewrite getPrettierSettings_run. run.
  reflexivity.
Qed.

Lemma formatSelection_sync (editor : Editor) (w : World) :
  formatSelection editor w
  = (AwaitFormat (h_getSelection editor (hostState w))
       (selectionRequest w)
       (applySelection editor (h_getSelection editor (hostState w))),
     after w (hostState w) (selectionReads editor w)).
Proof.
  unfold formatSelection. run. rewrite getPrettierSettings_run. run.
  reflexivity.
Qed.

(** The rest of [formatDocument] behind the [await]. *)
Lemma applyDocument_same (editor : Editor) (text : jsstring) (r : CursorResult)
    (w : World) :
  formatted r = text -> applyDocument editor text r w = (tt, w).
Proof.
  intros H. unfold applyDocument. rewrite H, jsstring_eqb_refl. reflexivity.
Qed.

Lemma applyDocument_changed (editor : Editor) (text : jsstring)
    (r : CursorResult) (w : World) :
  formatted r <> text ->
  applyDocument editor text r w
  = (tt,
     after w
       (h_scrollTo editor
          (left (h_getScrollInfo editor (hostState w)))
          (top (h_getScrollInfo editor (hostState w)))
          (h_setCursor editor
             (cursorOffsetToPosition (formatted r) (cursorOffset r))
             (h_setValue editor (formatted r) (hostState w))))
       [GetScrollInfo editor;
        SetValue editor (formatted r);
        SetCursor editor (cursorOffsetToPosition (formatted r) (cursorOffset r));
        ScrollTo editor (left (h_getScrollInfo editor (hostState w)))
          (top (h_getScrollInfo editor (hostState w)))]).
Proof.
  intros H. unfold applyDocument.
  destruct (jsstring_eqb (formatted r) text) eqn:E.
  - apply jsstring_eqb_eq in E. contradiction.
  - run. reflexivity.
Qed.

(** Behind its [await], [formatDocument] makes no call that saves. *)
Lemma applyDocument_log (editor : Editor) (text : jsstring) (r : CursorResult)
    (w : World) :
  exists s evs,
    applyDocument editor text r w = (tt, after w s evs) /\
    countEvents isSave evs = 0%nat.
Proof.
  destruct (list_eq_dec N.eq_dec (formatted r) text) as [E|E].
  - exists (hostState w), []. rewrite applyDocument_same by assumption.
    rewrite after_nothing. split; reflexivity.
  - eexists _, _. rewrite applyDocument_changed by assumption.
    split; reflexivity.
Qed.

(** [format], when a document view is active, is the operation it routes
    to; without one it does nothing. *)
Lemma format_run (kind : FormatKind) (editor : Editor) (w : World) :
  format kind editor w
  = match h_getActiveViewOfType (hostState w) with
    | Some _ =>
        match kind with
        | document =>
            formatDocument editor (after w (hostState w) [GetActiveViewOfType])
        | selection =>
            formatSelection editor (after w (hostState w) [GetActiveViewOfType])
        end
    | None => (Resolved tt, after w (hostState w) [GetActiveViewOfType])
    end.
Proof.
  unfold format. run.
  destruct (h_getActiveViewOfType (hostState w)); [destruct kind|]; reflexivity.
Qed.

(** * Theorems on the orchestrator *)

(** C3: in [formatDocument], when the engine returns the text of the buffer
    unchanged, nothing more happens: the state of the host, and with it the
    buffer, the cursor and the scroll state of the editor, is the one before
    the call, and the only calls made are the reads in front of the engine
    call: no [setValue], [setCursor] or [scrollTo]. *)
Theorem formatDocument_unchanged_text_is_noop (editor : Editor) (w : World)
    (r : CursorResult) :
  prettierFormatWithCursor (h_getValue editor (hostState w))
    (documentRequest editor w) = inr r ->
  formatted r = h_getValue editor (hostState w) ->
  awaited (formatDocument editor) w
  = (inr tt, after w (hostState w) (documentReads editor w)) /\
  existsb mutates (documentReads editor w) = false.
Proof.
  intros Hengine Hsame. split; [|reflexivity].
  unfold awaited, bind. rewrite formatDocument_sync.
  unfold settle. rewrite Hengine. unfold bind, ret.
  rewrite applyDocument_same by assumption. reflexivity.
Qed.

(** C5: when the engine rejects, [formatDocument] and [formatSelection]
    reject with the very error of the engine, and so does [format] above
    them; the state of the host is the one before the call and the only
    calls made are the reads in front of the engine call: no [setValue],
    [setCursor], [scrollTo] or [replaceSelection]. *)
Theorem engine_rejection_propagates (editor : Editor) (w : World)
    (err : JSError) :
  (prettierFormatWithCursor (h_getValue editor (hostState w))
     (documentRequest editor w) = inl err ->
   awaited (formatDocument editor) w
   = (inl err, after w (hostState w) (documentReads editor w)) /\
   (h_getActiveViewOfType (hostState w) <> None ->
    awaited (format document editor) w
    = (inl err,
       after w (hostState w) (GetActiveViewOfType :: documentReads editor w))) /\
   existsb mutates (documentReads editor w) = false)
  /\
  (prettierFormat (h_getSelection editor (hostState w))
     (selectionRequest w) = inl err ->
   awaited (formatSelection editor) w
   = (inl err, after w (hostState w) (selectionReads editor w)) /\
   (h_getActiveViewOfType (hostState w) <> None ->
    awaited (format selection editor) w
    = (inl err,
       after w (hostState w) (GetActiveViewOfType :: selectionReads editor w))) /\
   existsb mutates (selectionReads editor w) = false).
Proof.
  split; intros Hengine; (split; [|split; [|reflexivity]]).
  - unfold awaited, bind. rewrite formatDocument_sync.
    unfold settle. rewrite Hengine. reflexivity.
  - intros Hview. unfold awaited, bind. rewrite format_run.
    destruct (h_getActiveViewOfType (hostState w)); [|contradiction].
    rewrite formatDocument_sync. unfold settle.
    cbn [hostState after]. change (documentRequest editor (after w (hostState w) [GetActiveViewOfType]))
      with (documentRequest editor w).
    rewrite Hengine, after_after. reflexivity.
  - unfold awaited, bind. rewrite formatSelection_sync.
    unfold settle. rewrite Hengine. reflexivity.
  - intros Hview. unfold awaited, bind. rewrite format_run.
    destruct (h_getActiveViewOfType (hostState w)); [|contradiction].
    rewrite formatSelection_sync. unfold settle.
    cbn [hostState after]. change (selectionRequest (after w (hostState w) [GetActiveViewOfType]))
      with (selectionRequest w).
    rewrite Hengine, after_after. reflexivity.
Qed.

(** C6: [formatSelection] reads the selection, not the buffer, and hands
    it to the engine; when the engine returns the selected text it changes
    nothing, and otherwise its one change is [replaceSelection] with the
    result of the engine; it makes no call that reads or writes the cursor
    or the scroll state. *)
Theorem formatSelection_replaces_selection (editor : Editor) (w : World)
    (r : jsstring) :
  let text := h_getSelection editor (hostState w) in
  prettierFormat text (selectionRequest w) = inr r ->
  (r = text ->
   awaited (formatSelection editor) w
   = (inr tt, after w (hostState w) (selectionReads editor w))) /\
  (r <> text ->
   awaited (formatSelection editor) w
   = (inr tt,
      after w (h_replaceSelection editor r (hostState w))
        (selectionReads editor w ++ [ReplaceSelection editor r]))) /\
  selectionReads editor w
  = [GetSelection editor; GetConfig "useTabs"; GetConfig "tabSize";
     PrettierFormat text (selectionRequest w)] /\
  existsb mutates (selectionReads editor w) = false /\
  existsb touchesCursorOrScroll
    (selectionReads editor w ++ [ReplaceSelection editor r]) = false.
Proof.
  intros text Hengine.
  split; [|split; [|repeat split]].
  - intros Hsame. unfold awaited, bind. rewrite formatSelection_sync.
    unfold settle. fold text. rewrite Hengine. unfold bind, ret, applySelection.
    rewrite Hsame, jsstring_eqb_refl. reflexivity.
  - intros Hdiff. unfold awaited, bind. rewrite formatSelection_sync.
    unfold settle. fold text. rewrite Hengine. unfold bind, ret, applySelection.
    destruct (jsstring_eqb r text) eqn:E.
    + apply jsstring_eqb_eq in E. contradiction.
    + unfold replaceSelection. rewrite hostCall_run, after_after. reflexivity.
Qed.

(** C10: every call of [getPrettierSettings] asks the configuration of the
    host for [useTabs] and for [tabSize] and computes the options from the
    answers of that moment; an absent [useTabs] gives [useTabs = false], an
    absent [tabSize] gives [tabWidth = 4], a present value is taken as it
    is; and these are the options that [formatDocument] and
    [formatSelection] hand to the engine. *)
Theorem getPrettierSettings_defaults (editor : Editor) (w : World) :
  let opts := fst (getPrettierSettings w) in
  snd (getPrettierSettings w)
  = after w (hostState w) [GetConfig "useTabs"; GetConfig "tabSize"] /\
  (h_getConfigBool "useTabs" (hostState w) = None -> opt_useTabs opts = false) /\
  (h_getConfigNum "tabSize" (hostState w) = None -> opt_tabWidth opts = 4) /\
  (forall b, h_getConfigBool "useTabs" (hostState w) = Some b ->
             opt_useTabs opts = b) /\
  (forall n, h_getConfigNum "tabSize" (hostState w) = Some n ->
             opt_tabWidth opts = n) /\
  (exists text k,
     fst (formatDocument editor w) = AwaitFormatWithCursor text
       {| parser := "markdown"; plugins := prettierPlugins;
          opt_cursorOffset := opt_cursorOffset (documentRequest editor w);
          spread := opts |} k) /\
  (exists text k,
     fst (formatSelection editor w) = AwaitFormat text
       {| parser := "markdown"; plugins := prettierPlugins;
          opt_cursorOffset := None;
          spread := opts |} k).
Proof.
  intros opts. subst opts. rewrite getPrettierSettings_run. cbn [fst snd].
  split; [reflexivity|].
  split; [intros H; cbn; now rewrite H|].
  split; [intros H; cbn; now rewrite H|].
  split; [intros b H; cbn; now rewrite H|].
  split; [intros n H; cbn; now rewrite H|].
  split.
  - rewrite formatDocument_sync. cbn [fst]. eexists _, _. reflexivity.
  - rewrite formatSelection_sync. cbn [fst]. eexists _, _. reflexivity.
Qed.

(** The wrapped save callback: what it does in front of [save()], and
    [save()] once, on every path. *)
Lemma wrappedSave_run (save : Callback) (w : World) :
  wrappedSave save w
  = (saveHookFloating w
       ++ fst (save (after w (hostState w) (saveHookReads w))),
     snd (save (after w (hostState w) (saveHookReads w)))).
Proof.
  assert (Hpre :
    (if formatOnSave (settings w) then
       bind getActiveViewOfType (fun view =>
         match match view with Some v => view_editor v | None => None end with
         | Some editor => bind (format document editor) (fun t => ret [t])
         | None => ret []
         end)
     else ret []) w
    = (saveHookFloating w, after w (hostState w) (saveHookReads w))).
  { unfold saveHookFloating, saveHookReads, focusedEditor.
    destruct (formatOnSave (settings w)).
    - run.
      destruct (h_getActiveViewOfType (hostState w)) as [[[ed|]]|] eqn:Ev;
        cbn [view_editor]; try reflexivity.
      rewrite format_run. cbn [hostState after]. rewrite Ev.
      rewrite formatDocument_sync, !after_after. reflexivity.
    - unfold ret. now rewrite after_nothing. }
  unfold wrappedSave. rewrite !bind_run. unfold getSettings.
  cbn [fst snd]. rewrite Hpre. reflexivity.
Qed.

Lemma saveHookReads_quiet (w : World) :
  countEvents isSave (saveHookReads w) = 0%nat /\
  existsb mutates (saveHookReads w) = false.
Proof.
  unfold saveHookReads.
  destruct (formatOnSave (settings w)); [|split; reflexivity].
  destruct (focusedEditor w); split; reflexivity.
Qed.

(** The promises left by the hook, when they go on, make no call that
    saves. *)
Lemma saveHookFloating_settle (w w1 : World) :
  exists results s evs,
    settleAll (saveHookFloating w) w1 = (results, after w1 s evs) /\
    countEvents isSave evs = 0%nat.
Proof.
  unfold saveHookFloating.
  destruct (formatOnSave (settings w));
    [destruct (focusedEditor w) as [ed|]|].
  - cbn [settleAll settle]. unfold bind, ret.
    destruct (prettierFormatWithCursor _ _) as [err|r].
    + exists [inl err], (hostState w1), []. rewrite after_nothing.
      split; reflexivity.
    + destruct (applyDocument_log ed (h_getValue ed (hostState w)) r w1)
        as (s & evs & Hk & Hn).
      rewrite Hk. exists [inr tt], s, evs. split; [reflexivity | exact Hn].
  - exists [], (hostState w1), []. rewrite after_nothing. split; reflexivity.
  - exists [], (hostState w1), []. rewrite after_nothing. split; reflexivity.
Qed.

Lemma countEvents_app (f : Event -> bool) (l1 l2 : list Event) :
  countEvents f (l1 ++ l2) = (countEvents f l1 + countEvents f l2)%nat.
Proof. unfold countEvents. now rewrite filter_app, length_app. Qed.

(** [hookIntoSaveCmd] replaces a save callback by its wrapper; every call
    of the wrapper calls the original [save] once, on every path, behind
    calls that neither save nor change an editor, so that one turn of the
    event loop on the wrapper of the host's callback saves exactly once;
    with [formatOnSave] set and a document editor focused, what the wrapper
    has done of [formatDocument] when it calls [save()] is the reads and the
    call of the engine: the promise is not awaited. *)
Theorem save_hook_is_additive (save : Callback) (w : World) :
  hookIntoSaveCmd (Some {| callback := Some save |})
  = Some {| callback := Some (wrappedSave save) |} /\
  (let w1 := after w (hostState w) (saveHookReads w) in
   wrappedSave save w = (saveHookFloating w ++ fst (save w1), snd (save w1))) /\
  countEvents isSave (saveHookReads w) = 0%nat /\
  existsb mutates (saveHookReads w) = false /\
  (exists results s rest,
     runCallback (wrappedSave hostSave) w
     = (results, after w s (saveHookReads w ++ Save :: rest)) /\
     countEvents isSave (saveHookReads w ++ Save :: rest) = 1%nat) /\
  (forall editor,
     formatOnSave (settings w) = true -> focusedEditor w = Some editor ->
     saveHookReads w
     = GetActiveViewOfType :: GetActiveViewOfType :: documentReads editor w /\
     saveHookFloating w
     = [fst (formatDocument editor
               (after w (hostState w) [GetActiveViewOfType; GetActiveViewOfType]))]).
Proof.
  split; [reflexivity|].
  split; [apply wrappedSave_run|].
  destruct (saveHookReads_quiet w) as [Hsave Hmut].
  split; [exact Hsave|]. split; [exact Hmut|]. split.
  - unfold runCallback, bind. rewrite wrappedSave_run.
    unfold hostSave. rewrite hostCall_run, after_after. cbn [fst snd].
    rewrite app_nil_r.
    destruct (saveHookFloating_settle w
                (after w (h_save (hostState (after w (hostState w) (saveHookReads w))))
                   (saveHookReads w ++ [Save])))
      as (results & s & evs & Hk & Hn).
    rewrite Hk, after_after. exists results, s, evs.
    rewrite <- app_assoc. split; [reflexivity|].
    rewrite countEvents_app, Hsave.
    change (countEvents isSave (Save :: evs)) with (S (countEvents isSave evs)).
    rewrite Hn. reflexivity.
  - intros editor Hfos Hed. unfold saveHookReads, saveHookFloating.
    rewrite Hfos, Hed. split; [reflexivity|].
    rewrite formatDocument_sync. reflexivity.
Qed.

(** Where the rewrite of the buffer falls when the hook formats: behind
    [save()], which has run on the buffer as it was. *)
Lemma save_hook_rewrites_behind_save (editor : Editor) (w : World)
    (r : CursorResult) :
  formatOnSave (settings w) = true ->
  focusedEditor w = Some editor ->
  prettierFormatWithCursor (h_getValue editor (hostState w))
    (documentRequest editor w) = inr r ->
  formatted r <> h_getValue editor (hostState w) ->
  exists s,
    runCallback (wrappedSave hostSave) w
    = ([inr tt],
       after w s
         (saveHookReads w ++ Save ::
          [GetScrollInfo editor;
           SetValue editor (formatted r);
           SetCursor editor
             (cursorOffsetToPosition (formatted r) (cursorOffset r));
           ScrollTo editor
             (left (h_getScrollInfo editor (h_save (hostState w))))
             (top (h_getScrollInfo editor (h_save (hostState w))))])).
Proof.
  intros Hfos Hed Hengine Hdiff.
  unfold runCallback. rewrite bind_run, wrappedSave_run.
  unfold hostSave. rewrite hostCall_run, after_after. cbn [fst snd].
  rewrite app_nil_r. unfold saveHookFloating. rewrite Hfos, Hed.
  cbn [settleAll settle]. rewrite Hengine. unfold bind, ret.
  rewrite applyDocument_changed by assumption.
  rewrite after_after, <- app_assoc. eexists. reflexivity.
Qed.

End PluginFacts.

(** * The orchestrator on the small host *)

Lemma formatDocument_unchanged_text_is_noop_witness :
  @awaited TestHost.pane TestHost.tidy unit (formatDocument 0%nat)
    (TestHost.world0 false)
  = (inr tt,
     after (TestHost.world0 false) TestHost.pane0
       (documentReads 0%nat (TestHost.world0 false))).
Proof.
  exact (proj1 (@formatDocument_unchanged_text_is_noop
                  TestHost.pane TestHost.tidy 0%nat (TestHost.world0 false)
                  {| formatted := scenario1; cursorOffset := 3 |}
                  eq_refl eq_refl)).
Defined.

Lemma engine_rejection_propagates_witness :
  @awaited TestHost.pane TestHost.quote unit (formatDocument 0%nat)
    TestHost.world1
  = (inl "SyntaxError"%string,
     after TestHost.world1 TestHost.pane1 (documentReads 0%nat TestHost.world1))
  /\
  @awaited TestHost.pane TestHost.quote unit (formatSelection 0%nat)
    TestHost.world1
  = (inl "SyntaxError"%string,
     after TestHost.world1 TestHost.pane1 (selectionReads 0%nat TestHost.world1))
  /\
  @awaited TestHost.pane TestHost.quote unit (format document 0%nat)
    TestHost.world1
  = (inl "SyntaxError"%string,
     after TestHost.world1 TestHost.pane1
       (GetActiveViewOfType :: documentReads 0%nat TestHost.world1)).
Proof.
  destruct (@engine_rejection_propagates TestHost.pane TestHost.quote
              0%nat TestHost.world1 "SyntaxError"%string) as [Hdoc Hsel].
  destruct (Hdoc eq_refl) as (Hd & Hf & _).
  destruct (Hsel eq_refl) as (Hs & _ & _).
  split; [exact Hd|]. split; [exact Hs|].
  apply Hf. discriminate.
Defined.

Lemma formatSelection_replaces_selection_witness :
  @awaited TestHost.pane TestHost.tidy unit (formatSelection 0%nat)
    (TestHost.world0 false)
  = (inr tt,
     after (TestHost.world0 false) TestHost.pane0
       (selectionReads 0%nat (TestHost.world0 false)))
  /\
  @awaited TestHost.pane TestHost.quote unit (formatSelection 0%nat)
    (TestHost.world0 false)
  = (inr tt,
     after (TestHost.world0 false)
       (TestHost.withSelection [62; 32; 98; 98]%N TestHost.pane0)
       (selectionReads 0%nat (TestHost.world0 false)
          ++ [ReplaceSelection 0%nat [62; 32; 98; 98]%N])).
Proof.
  split.
  - destruct (@formatSelection_replaces_selection TestHost.pane TestHost.tidy
                0%nat (TestHost.world0 false) [98; 98]%N eq_refl)
      as (Hsame & _).
    exact (Hsame eq_refl).
  - destruct (@formatSelection_replaces_selection TestHost.pane TestHost.quote
                0%nat (TestHost.world0 false) [62; 32; 98; 98]%N eq_refl)
      as (_ & Hdiff & _).
    apply Hdiff. discriminate.
Defined.

Lemma getPrettierSettings_defaults_witness :
  opt_useTabs (fst (@getPrettierSettings TestHost.pane (TestHost.world0 false)))
  = false /\
  opt_tabWidth (fst (@getPrettierSettings TestHost.pane (TestHost.world0 false)))
  = 4 /\
  opt_useTabs (fst (@getPrettierSettings TestHost.pane TestHost.world1)) = true /\
  opt_tabWidth (fst (@getPrettierSettings TestHost.pane TestHost.world1)) = 2.
Proof.
  destruct (@getPrettierSettings_defaults TestHost.pane 0%nat
              (TestHost.world0 false)) as (_ & Htabs & Hwidth & _).
  destruct (@getPrettierSettings_defaults TestHost.pane 0%nat
              TestHost.world1) as (_ & _ & _ & Htabs1 & Hwidth1 & _).
  split; [exact (Htabs eq_refl)|]. split; [exact (Hwidth eq_refl)|].
  split; [exact (Htabs1 true eq_refl) | exact (Hwidth1 2 eq_refl)].
Defined.

(** C4: the code at the failing input.  With format-on-save enabled and
    the editor focused, one save through the wrapped callback on the small
    host: [formatDocument] has not run when the save action executes.  The
    wrapper drops the promise of [this.format] and calls [save()] at once,
    so the buffer is rewritten behind [Save], and what the save action has
    written is the text before formatting. *)
Lemma save_runs_before_the_rewrite :
  editsPrecedeSave (log TestHost.savedTurn) = false /\
  TestHost.saved (hostState TestHost.savedTurn) = [scenario1] /\
  TestHost.buffer (hostState TestHost.savedTurn)
  = (62 :: 32 :: scenario1)%N.
Proof.
  repeat split; vm_compute; reflexivity.
Qed.

Lemma save_hook_is_additive_witness :
  formatOnSave (settings (TestHost.world0 true)) = true /\
  @focusedEditor TestHost.pane (TestHost.world0 true) = Some 0%nat /\
  @saveHookReads TestHost.pane (TestHost.world0 true)
  = GetActiveViewOfType :: GetActiveViewOfType
      :: documentReads 0%nat (TestHost.world0 true).
Proof.
  split; [reflexivity|]. split; [reflexivity|].
  destruct (@save_hook_is_additive TestHost.pane TestHost.quote
              hostSave (TestHost.world0 true)) as (_ & _ & _ & _ & _ & Hstart).
  exact (proj1 (Hstart 0%nat eq_refl eq_refl)).
Defined.

(** * More on the position codec *)

Lemma newlines_newline (s : jsstring) : newlines (NL :: s) = S (newlines s).
Proof. unfold newlines. now rewrite count_occ_cons_eq. Qed.

Lemma newlines_other (x : codeunit) (s : jsstring) :
  x <> NL -> newlines (x :: s) = newlines s.
Proof. intros H. unfold newlines. now rewrite count_occ_cons_neq. Qed.

Lemma lastIndexOf_newline (s : jsstring) :
  lastIndexOf (NL :: s) NL = lastIndexOf s NL + 1.
Proof.
  simpl. pose proof (lastIndexOf_lower s NL).
  destruct (0 <=? lastIndexOf s NL) eqn:E; [reflexivity|].
  apply Z.leb_gt in E. lia.
Qed.

Lemma lastIndexOf_other (x : codeunit) (s : jsstring) :
  x <> NL ->
  lastIndexOf (x :: s) NL
  = if (newlines s =? 0)%nat then -1 else lastIndexOf s NL + 1.
Proof.
  intros Hx. simpl. apply N.eqb_neq in Hx. rewrite Hx.
  pose proof (lastIndexOf_lower s NL) as Hlow.
  pose proof (lastIndexOf_absent s NL) as Habs. fold (newlines s) in Habs.
  destruct (newlines s =? 0)%nat eqn:En.
  - apply Nat.eqb_eq in En. apply Habs in En. rewrite En. reflexivity.
  - apply Nat.eqb_neq in En.
    destruct (0 <=? lastIndexOf s NL) eqn:E; [reflexivity|].
    apply Z.leb_gt in E. exfalso. apply En, Habs. lia.
Qed.

(** The offset of a column on the line that a prefix of the buffer ends in:
    one behind the last newline of the prefix, plus the column. *)
Lemma toOffset_prefix (s t : jsstring) (c : Z) :
  positionToCursorOffset (s ++ t) {| line := Z.of_nat (newlines s); ch := c |}
  = lastIndexOf s NL + 1 + c.
Proof.
  induction s as [|x s IH].
  - simpl app. change (Z.of_nat (newlines [])) with 0.
    rewrite toOffset_line0. reflexivity.
  - rewrite <- app_comm_cons. destruct (N.eq_dec x NL) as [->|Hx].
    + rewrite toOffset_newline, newlines_newline, lastIndexOf_newline.
      cbn [line ch].
      replace (0 <? Z.of_nat (S (newlines s))) with true
        by (symmetry; apply Z.ltb_lt; lia).
      replace (Z.of_nat (S (newlines s)) - 1) with (Z.of_nat (newlines s)) by lia.
      rewrite IH. lia.
    + rewrite toOffset_other, newlines_other, lastIndexOf_other by assumption.
      cbn [line]. destruct (newlines s =? 0)%nat eqn:En.
      * apply Nat.eqb_eq in En. rewrite En in *. simpl Z.of_nat.
        change (0 <? 0) with false. cbv iota. rewrite toOffset_line0. lia.
      * apply Nat.eqb_neq in En.
        replace (0 <? Z.of_nat (newlines s)) with true
          by (symmetry; apply Z.ltb_lt; lia).
        rewrite IH. lia.
Qed.

(** The round trip from an offset, in the integers. *)
Lemma offset_roundtrip_integers (b : jsstring) (o : Z) :
  positionToCursorOffset b (cursorOffsetToPosition b o) = o.
Proof.
  unfold cursorOffsetToPosition, slice0.
  set (k := Z.to_nat _).
  rewrite <- (firstn_skipn k b) at 1.
  unfold len at 1. rewrite length_split_nl. fold (newlines (firstn k b)).
  replace (Z.of_nat (S (newlines (firstn k b))) - 1)
    with (Z.of_nat (newlines (firstn k b))) by lia.
  rewrite toOffset_prefix. lia.
Qed.

(** The column of the position of an offset lies between the offset less
    the length of the buffer and the offset. *)
Lemma toPosition_column_range (b : jsstring) (o : Z) :
  o - len b <= ch (cursorOffsetToPosition b o) <= o.
Proof.
  unfold cursorOffsetToPosition. cbn [ch].
  pose proof (lastIndexOf_lower (slice0 b o) NL) as Hlow.
  pose proof (lastIndexOf_upper (slice0 b o) NL) as Hup.
  assert (Hs : len (slice0 b o) <= len b).
  { unfold slice0, len. rewrite length_firstn. lia. }
  lia.
Qed.

(** X1: the round trip from an offset does not need the offset to lie
    within the buffer: for every buffer and every integer offset, negative
    or beyond the end of the buffer included, as long as the offset and the
    length of the buffer together stay within the safe integers (where the
    arithmetic of the code is exact), the position of the offset has the
    offset; the column on the way is a safe integer too. *)
Theorem offset_roundtrip_out_of_range (b : jsstring) (o : Z) :
  Z.abs o + len b <= MAX_SAFE_INTEGER ->
  positionToCursorOffset b (cursorOffsetToPosition b o) = o /\
  Z.abs (ch (cursorOffsetToPosition b o)) <= MAX_SAFE_INTEGER.
Proof.
  intros Hsafe. split; [apply offset_roundtrip_integers|].
  pose proof (toPosition_column_range b o). pose proof (len_nonneg b). lia.
Qed.

Lemma offset_roundtrip_out_of_range_witness :
  positionToCursorOffset scenario1 (cursorOffsetToPosition scenario1 (-3)) = -3 /\
  positionToCursorOffset scenario1 (cursorOffsetToPosition scenario1 20) = 20.
Proof.
  split.
  - apply (offset_roundtrip_out_of_range scenario1 (-3)). vm_compute. discriminate.
  - apply (offset_roundtrip_out_of_range scenario1 20). vm_compute. discriminate.
Defined.

(** The line that a prefix of the buffer ends in reaches at least as far as
    the prefix does behind its last newline. *)
Lemma split_nl_prefix_line (s t : jsstring) :
  exists l, nth_error (split_nl (s ++ t)) (newlines s) = Some l /\
            len s - lastIndexOf s NL - 1 <= len l.
Proof.
  induction s as [|x s (l & Hl & Hlen)].
  - destruct (split_nl_cons t) as [l [ls Ht]]. exists l. simpl app.
    rewrite Ht. split; [reflexivity|]. pose proof (len_nonneg l). cbn. lia.
  - rewrite <- app_comm_cons. destruct (N.eq_dec x NL) as [->|Hx].
    + exists l. rewrite split_nl_newline, newlines_newline, lastIndexOf_newline.
      rewrite len_cons. split; [exact Hl | lia].
    + destruct (split_nl_cons (s ++ t)) as [l0 [ls Hst]].
      rewrite (split_nl_other x _ l0 ls Hx Hst), newlines_other,
        lastIndexOf_other, len_cons by assumption.
      rewrite Hst in Hl. destruct (newlines s) as [|n] eqn:En.
      * simpl in Hl. injection Hl as ->. exists (x :: l). simpl Nat.eqb.
        cbv iota. rewrite len_cons. split; [reflexivity|].
        assert (lastIndexOf s NL = -1) by (now apply lastIndexOf_absent).
        lia.
      * exists l. simpl Nat.eqb. cbv iota. split; [exact Hl | lia].
Qed.

(** The position of an offset within the buffer is a position of it. *)
Lemma offset_position_valid (b : jsstring) (o : Z) :
  0 <= o <= len b ->
  validPosition b (cursorOffsetToPosition b o) = true.
Proof.
  intros Ho. unfold validPosition, cursorOffsetToPosition.
  rewrite slice0_prefix by assumption. cbn [line ch].
  set (s := firstn (Z.to_nat o) b).
  assert (Hlen : len s = o).
  { unfold s, len. rewrite length_firstn. unfold len in Ho. lia. }
  assert (Hline : len (split_nl s) - 1 = Z.of_nat (newlines s)).
  { unfold len. rewrite length_split_nl. fold (newlines s). lia. }
  rewrite !Hline, Nat2Z.id.
  destruct (split_nl_prefix_line s (skipn (Z.to_nat o) b)) as (l & Hl & Hle).
  unfold s in Hl at 1. rewrite firstn_skipn in Hl. rewrite Hl.
  pose proof (lastIndexOf_upper s NL).
  apply andb_true_iff. split; [apply Z.leb_le; lia|].
  apply andb_true_iff. split; apply Z.leb_le; lia.
Qed.

(** X2: the position of an offset within the buffer is a position of the
    buffer: its line is one of the lines and its column lies within that
    line, the end included. *)
Theorem toPosition_valid (b : jsstring) (o : Z) :
  0 <= o <= len b ->
  validPosition b (cursorOffsetToPosition b o) = true.
Proof.
  exact (offset_position_valid b o).
Qed.

Lemma toPosition_valid_witness :
  0 <= 8 <= len scenario1 /\
  validPosition scenario1 (cursorOffsetToPosition scenario1 8) = true.
Proof.
  assert (H : 0 <= 8 <= len scenario1) by (cbn; lia).
  split; [exact H | exact (toPosition_valid scenario1 8 H)].
Defined.

(** X3: the offset of a position of the buffer lies within the buffer. *)
Theorem toOffset_in_range (b : jsstring) (p : CursorPosition) :
  validPosition b p = true ->
  0 <= positionToCursorOffset b p <= len b.
Proof.
  intros Hv. exact (proj1 (valid_offset_inverse b p Hv)).
Qed.

Lemma toOffset_in_range_witness :
  validPosition scenario1 {| line := 2; ch := 3 |} = true /\
  0 <= positionToCursorOffset scenario1 {| line := 2; ch := 3 |}
    <= len scenario1.
Proof.
  split; [reflexivity|].
  exact (toOffset_in_range scenario1 {| line := 2; ch := 3 |} eq_refl).
Defined.

(** The fold up to the target line: the lines in front of it with their
    newlines, then the column. *)
Lemma reduce_to_line (p : CursorPosition) (ls : list jsstring) (i acc : Z) :
  i <= line p < i + len ls ->
  reduce_from (offsetStep p) ls i acc
  = acc
    + fold_right (fun ln a => len ln + 1 + a) 0
        (firstn (Z.to_nat (line p - i)) ls)
    + ch p.
Proof.
  revert i acc. induction ls as [|l ls IH]; intros i acc Hi.
  - cbn in Hi. lia.
  - rewrite len_cons in Hi. simpl reduce_from. unfold offsetStep at 2.
    destruct (i <? line p) eqn:E1.
    + apply Z.ltb_lt in E1. rewrite IH by lia.
      replace (Z.to_nat (line p - i)) with (S (Z.to_nat (line p - (i + 1))))
        by lia.
      simpl. lia.
    + apply Z.ltb_ge in E1. assert (Heq : i = line p) by lia.
      replace (i =? line p) with true by (symmetry; apply Z.eqb_eq; lia).
      rewrite reduce_past by lia.
      replace (Z.to_nat (line p - i)) with 0%nat by lia. simpl. lia.
Qed.

(** On a line of the buffer the offset is the start of the line plus the
    column. *)
Lemma toOffset_closed_form (b : jsstring) (p : CursorPosition) :
  0 <= line p < len (split_nl b) ->
  positionToCursorOffset b p = lineStart b (line p) + ch p.
Proof.
  intros H. unfold positionToCursorOffset, reduce, lineStart.
  rewrite reduce_to_line by lia.
  replace (line p - 0) with (line p) by lia. lia.
Qed.

(** X4: the column is not checked against the line: for a line of the
    buffer, the offset is the start of the line plus the column, for every
    column, negative or beyond the end of the line included, as long as the
    column and the length of the buffer together stay within the safe
    integers (where the arithmetic of the code is exact); the start of the
    line lies within the buffer. *)
Theorem toOffset_line_start (b : jsstring) (p : CursorPosition) :
  0 <= line p < len (split_nl b) ->
  Z.abs (ch p) + len b <= MAX_SAFE_INTEGER ->
  positionToCursorOffset b p = lineStart b (line p) + ch p /\
  0 <= lineStart b (line p) <= len b.
Proof.
  intros Hline Hsafe. split; [now apply toOffset_closed_form|].
  assert (Hv : validPosition b {| line := line p; ch := 0 |} = true).
  { unfold validPosition. cbn [line ch].
    destruct (nth_error (split_nl b) (Z.to_nat (line p))) as [ln|] eqn:E.
    - pose proof (len_nonneg ln).
      apply andb_true_iff. split; [apply Z.leb_le; lia|].
      apply andb_true_iff. split; apply Z.leb_le; lia.
    - apply nth_error_None in E. unfold len in Hline. lia. }
  pose proof (proj1 (valid_offset_inverse b _ Hv)) as Hrange.
  rewrite toOffset_closed_form in Hrange by (cbn [line]; lia).
  cbn [line ch] in Hrange. lia.
Qed.

Lemma toOffset_line_start_witness :
  0 <= 1 < len (split_nl scenario1) /\
  positionToCursorOffset scenario1 {| line := 1; ch := 40 |} = 2 + 40 /\
  positionToCursorOffset scenario1 {| line := 1; ch := -5 |} = 2 + -5.
Proof.
  assert (H : 0 <= 1 < len (split_nl scenario1)) by (cbn; lia).
  split; [exact H|]. split.
  - apply (toOffset_line_start scenario1 {| line := 1; ch := 40 |} H).
    vm_compute. discriminate.
  - apply (toOffset_line_start scenario1 {| line := 1; ch := -5 |} H).
    vm_compute. discriminate.
Defined.

(** X5: a negative line matches no line of the buffer: the offset is 0,
    whatever the buffer and the column. *)
Theorem toOffset_negative_line (b : jsstring) (p : CursorPosition) :
  line p < 0 -> positionToCursorOffset b p = 0.
Proof.
  intros H. unfold positionToCursorOffset, reduce. now apply reduce_past.
Qed.

Lemma toOffset_negative_line_witness :
  positionToCursorOffset scenario1 {| line := -1; ch := 7 |} = 0.
Proof.
  apply toOffset_negative_line. cbn. lia.
Defined.

(** The last line is what follows the last newline. *)
Lemma len_lastLine (b : jsstring) :
  len (lastLine b) = len b - lastIndexOf b NL - 1.
Proof.
  unfold lastLine. induction b as [|x b IH]; [reflexivity|].
  destruct (split_nl_cons b) as [l [ls Hb]].
  destruct (N.eq_dec x NL) as [->|Hx].
  - rewrite split_nl_newline, lastIndexOf_newline, len_cons, Hb.
    rewrite Hb in IH. change (last ([] :: l :: ls) []) with (last (l :: ls) []).
    lia.
  - rewrite (split_nl_other x b l ls Hx Hb), lastIndexOf_other, len_cons
      by assumption.
    rewrite Hb in IH.
    assert (Hn : newlines b = List.length ls).
    { pose proof (length_split_nl b) as Hl. rewrite Hb in Hl.
      simpl in Hl. unfold newlines. lia. }
    rewrite Hn. destruct ls as [|l' ls'].
    + simpl Nat.eqb. cbv iota. simpl last in *. rewrite len_cons.
      assert (lastIndexOf b NL = -1).
      { apply lastIndexOf_absent. exact Hn. }
      lia.
    + simpl Nat.eqb. cbv iota.
      change (last ((x :: l) :: l' :: ls') []) with (last (l' :: ls') []).
      change (last (l :: l' :: ls') []) with (last (l' :: ls') []) in IH.
      lia.
Qed.

(** X6: an offset at or beyond the end of the buffer is not clamped: up
    to the greatest safe integer (where the arithmetic of the code is
    exact), its position is on the last line, as many columns behind the end
    of that line as the offset is behind the end of the buffer; the end of
    the buffer itself is the end of the last line. *)
Theorem toPosition_beyond_end (b : jsstring) (o : Z) :
  len b <= o <= MAX_SAFE_INTEGER ->
  cursorOffsetToPosition b o
  = {| line := Z.of_nat (newlines b);
       ch := len (lastLine b) + (o - len b) |} /\
  0 <= len (lastLine b) + (o - len b) <= o.
Proof.
  intros [Ho Hsafe]. pose proof (len_nonneg b) as Hb.
  assert (Hlast : len (lastLine b) = len b - lastIndexOf b NL - 1)
    by apply len_lastLine.
  pose proof (lastIndexOf_lower b NL). pose proof (lastIndexOf_upper b NL).
  split; [|lia].
  unfold cursorOffsetToPosition, slice0.
  destruct (o <? 0) eqn:E; [apply Z.ltb_lt in E; lia|].
  rewrite Z.min_r by lia.
  replace (firstn (Z.to_nat (len b)) b) with b
    by (unfold len; rewrite Nat2Z.id; symmetry; apply firstn_all).
  rewrite Hlast.
  assert (Hline : len (split_nl b) - 1 = Z.of_nat (newlines b)).
  { unfold len. rewrite length_split_nl. fold (newlines b). lia. }
  rewrite Hline. f_equal. lia.
Qed.

Lemma toPosition_beyond_end_witness :
  len scenario1 <= 10 <= MAX_SAFE_INTEGER /\
  cursorOffsetToPosition scenario1 10 = {| line := 2; ch := 3 + 2 |}.
Proof.
  assert (H : len scenario1 <= 10 <= MAX_SAFE_INTEGER).
  { split; vm_compute; discriminate. }
  split; [exact H | exact (proj1 (toPosition_beyond_end scenario1 10 H))].
Defined.

(** X7: for every offset that, together with the length of the buffer,
    stays within the safe integers (where the arithmetic of the code is
    exact), the line of its position is not negative and its column lies
    between the offset less the length of the buffer and the offset; the
    column is negative exactly when the offset is. *)
Theorem toPosition_bounds (b : jsstring) (o : Z) :
  Z.abs o + len b <= MAX_SAFE_INTEGER ->
  0 <= line (cursorOffsetToPosition b o) /\
  o - len b <= ch (cursorOffsetToPosition b o) <= o /\
  (0 <= o -> 0 <= ch (cursorOffsetToPosition b o)) /\
  (o < 0 -> ch (cursorOffsetToPosition b o) < 0).
Proof.
  intros Hsafe.
  split; [apply toPosition_line_nonneg|].
  pose proof (toPosition_column_range b o) as Hrange.
  split; [exact Hrange|]. split; [|lia].
  intros Ho. unfold cursorOffsetToPosition. cbn [ch].
  pose proof (lastIndexOf_upper (slice0 b o) NL) as Hup.
  assert (Hs : len (slice0 b o) <= o).
  { unfold slice0. destruct (o <? 0) eqn:E; [apply Z.ltb_lt in E; lia|].
    unfold len. rewrite length_firstn. lia. }
  lia.
Qed.

Lemma toPosition_bounds_witness :
  0 <= ch (cursorOffsetToPosition scenario1 6) /\
  ch (cursorOffsetToPosition scenario1 (-3)) < 0.
Proof.
  assert (H6 : Z.abs 6 + len scenario1 <= MAX_SAFE_INTEGER)
    by (vm_compute; discriminate).
  assert (H3 : Z.abs (-3) + len scenario1 <= MAX_SAFE_INTEGER)
    by (vm_compute; discriminate).
  split.
  - apply (toPosition_bounds scenario1 6 H6). lia.
  - apply (toPosition_bounds scenario1 (-3) H3). lia.
Defined.

(** * More on the orchestrator *)

Section MorePluginFacts.

Context {host : Host} {engine : Engine}.

(** X8: without an active document view, [format] does nothing, whatever
    the kind and the engine: its promise resolves, the only call is the
    look-up of the view, no editor is read or changed and the engine is not
    called. *)
Theorem format_without_view_is_silent (kind : FormatKind) (editor : Editor)
    (w : World) :
  h_getActiveViewOfType (hostState w) = None ->
  awaited (format kind editor) w
  = (inr tt, after w (hostState w) [GetActiveViewOfType]).
Proof.
  intros H. unfold awaited. rewrite bind_run, format_run, H. reflexivity.
Qed.

(** A [formatDocument] that changes the text, call by call. *)
Lemma formatDocument_changed_run (editor : Editor) (w : World)
    (r : CursorResult) :
  prettierFormatWithCursor (h_getValue editor (hostState w))
    (documentRequest editor w) = inr r ->
  formatted r <> h_getValue editor (hostState w) ->
  let before := h_getScrollInfo editor (hostState w) in
  let position := cursorOffsetToPosition (formatted r) (cursorOffset r) in
  awaited (formatDocument editor) w
  = (inr tt,
     after w
       (h_scrollTo editor (left before) (top before)
          (h_setCursor editor position
             (h_setValue editor (formatted r) (hostState w))))
       (documentReads editor w ++
        [GetScrollInfo editor;
         SetValue editor (formatted r);
         SetCursor editor position;
         ScrollTo editor (left before) (top before)])).
Proof.
  intros Hengine Hdiff before position.
  unfold awaited. rewrite bind_run, formatDocument_sync. cbn [fst snd].
  unfold settle. rewrite Hengine, bind_run.
  rewrite applyDocument_changed by assumption. cbn [fst snd].
  unfold ret. rewrite after_after. reflexivity.
Qed.

(** X9: when the engine returns another text, [formatDocument] reads the
    scroll state, then replaces the buffer, then sets the cursor to the
    position of the engine's offset in the new text, then scrolls to what it
    read before the replacement; these four calls follow the reads in front
    of the engine call and nothing else is called. *)
Theorem formatDocument_applies_in_order (editor : Editor) (w : World)
    (r : CursorResult) :
  prettierFormatWithCursor (h_getValue editor (hostState w))
    (documentRequest editor w) = inr r ->
  formatted r <> h_getValue editor (hostState w) ->
  let before := h_getScrollInfo editor (hostState w) in
  let position := cursorOffsetToPosition (formatted r) (cursorOffset r) in
  awaited (formatDocument editor) w
  = (inr tt,
     after w
       (h_scrollTo editor (left before) (top before)
          (h_setCursor editor position
             (h_setValue editor (formatted r) (hostState w))))
       (documentReads editor w ++
        [GetScrollInfo editor;
         SetValue editor (formatted r);
         SetCursor editor position;
         ScrollTo editor (left before) (top before)])).
Proof.
  exact (formatDocument_changed_run editor w r).
Qed.

(** X10: on an editor that reads back what is set, a [formatDocument] that
    changes the text leaves the editor with the text of the engine, the
    cursor at the position of the engine's offset in that text, and the
    scroll state that it had before; when the engine's offset lies within
    its text, the cursor is a position of the new buffer. *)
Theorem formatDocument_restores_view (editor : Editor) (w : World)
    (r : CursorResult) :
  EditorLaws editor ->
  prettierFormatWithCursor (h_getValue editor (hostState w))
    (documentRequest editor w) = inr r ->
  formatted r <> h_getValue editor (hostState w) ->
  let st := hostState (snd (awaited (formatDocument editor) w)) in
  h_getValue editor st = formatted r /\
  h_getCursor editor st
  = cursorOffsetToPosition (formatted r) (cursorOffset r) /\
  h_getScrollInfo editor st = h_getScrollInfo editor (hostState w) /\
  (0 <= cursorOffset r <= len (formatted r) ->
   validPosition (h_getValue editor st) (h_getCursor editor st) = true).
Proof.
  intros Laws Hengine Hdiff st. subst st.
  rewrite (formatDocument_changed_run editor w r Hengine Hdiff).
  cbn [snd hostState after].
  assert (Hvalue : forall x y p s st0,
    h_getValue editor (h_scrollTo editor x y
      (h_setCursor editor p (h_setValue editor s st0))) = s).
  { intros. now rewrite (value_scroll _ Laws), (value_cursor _ Laws),
      (value_set _ Laws). }
  assert (Hcursor : forall x y p st0,
    h_getCursor editor (h_scrollTo editor x y (h_setCursor editor p st0)) = p).
  { intros. now rewrite (cursor_scroll _ Laws), (cursor_set _ Laws). }
  rewrite Hvalue, Hcursor, (scroll_set _ Laws).
  split; [reflexivity|]. split; [reflexivity|]. split.
  - destruct (h_getScrollInfo editor (hostState w)). reflexivity.
  - apply offset_position_valid.
Qed.

(** X11: when the cursor of the editor is a position of its buffer,
    [formatDocument] hands the engine the buffer and a cursor offset that
    lies within the buffer and stands for that cursor. *)
Theorem formatDocument_offset_in_range (editor : Editor) (w : World) :
  let text := h_getValue editor (hostState w) in
  let cursor := h_getCursor editor (hostState w) in
  validPosition text cursor = true ->
  exists o k c,
    fst (formatDocument editor w) = AwaitFormatWithCursor text o k /\
    opt_cursorOffset o = Some c /\
    0 <= c <= len text /\
    cursorOffsetToPosition text c = cursor.
Proof.
  intros text cursor Hv. rewrite formatDocument_sync. cbn [fst].
  eexists _, _, _. split; [reflexivity|]. split; [reflexivity|].
  exact (valid_offset_inverse text cursor Hv).
Qed.

End MorePluginFacts.

Section SaveHookFacts.

Context {host : Host} {engine : Engine}.

Lemma pair_eta {A B : Type} (x : A * B) : (fst x, snd x) = x.
Proof. now destruct x. Qed.

(** X12: the wrapper reads [formatOnSave] when it is called, not when it is
    installed: while the setting is off, the wrapped callback is the
    original callback, and while it is on but no document editor is focused,
    the wrapper only looks up the view before it calls the original. *)
Theorem save_hook_is_transparent (save : Callback) (w : World) :
  (formatOnSave (settings w) = false -> wrappedSave save w = save w) /\
  (formatOnSave (settings w) = true -> focusedEditor w = None ->
   wrappedSave save w = save (after w (hostState w) [GetActiveViewOfType])).
Proof.
  split.
  - intros Hoff. rewrite wrappedSave_run.
    unfold saveHookFloating, saveHookReads. rewrite Hoff, after_nothing.
    cbn [app]. apply pair_eta.
  - intros Hon Hnone. rewrite wrappedSave_run.
    unfold saveHookFloating, saveHookReads. rewrite Hon, Hnone.
    cbn [app]. apply pair_eta.
Qed.

(** X13: [hookIntoSaveCmd] on a command that it has hooked already (a
    second call by the same plugin) wraps the wrapper: every save then
    starts [formatDocument] twice on the same buffer, each time in front of
    the one call of the original [save]. *)
Theorem save_hook_twice (save : Callback) (w : World) :
  hookIntoSaveCmd (hookIntoSaveCmd (Some {| callback := Some save |}))
  = Some {| callback := Some (wrappedSave (wrappedSave save)) |} /\
  (let w2 :=
     after w (hostState w) (saveHookReads w ++ saveHookReads w) in
   wrappedSave (wrappedSave save) w
   = (saveHookFloating w ++ saveHookFloating w ++ fst (save w2),
      snd (save w2))).
Proof.
  split; [reflexivity|]. intros w2. subst w2.
  rewrite wrappedSave_run.
  rewrite (wrappedSave_run save (after w (hostState w) (saveHookReads w))).
  cbn [fst snd hostState after].
  change (saveHookFloating (after w (hostState w) (saveHookReads w)))
    with (saveHookFloating w).
  change (saveHookReads (after w (hostState w) (saveHookReads w)))
    with (saveHookReads w).
  rewrite after_after. reflexivity.
Qed.

End SaveHookFacts.

(** *** On the small host *)

Lemma format_without_view_is_silent_witness :
  @awaited TestHost.pane TestHost.quote unit (format selection 0%nat)
    blurredWorld
  = (inr tt, after blurredWorld (hostState blurredWorld) [GetActiveViewOfType]).
Proof.
  exact (@format_without_view_is_silent TestHost.pane TestHost.quote
           selection 0%nat blurredWorld eq_refl).
Defined.

Lemma formatDocument_applies_in_order_witness :
  log (snd (@awaited TestHost.pane TestHost.quote unit (formatDocument 0%nat)
              (TestHost.world0 false)))
  = documentReads 0%nat (TestHost.world0 false) ++
    [GetScrollInfo 0%nat;
     SetValue 0%nat (62 :: 32 :: scenario1)%N;
     SetCursor 0%nat {| line := 1; ch := 1 |};
     ScrollTo 0%nat 0 120].
Proof.
  assert (Hdiff : (62 :: 32 :: scenario1)%N <> scenario1) by discriminate.
  rewrite (@formatDocument_applies_in_order TestHost.pane TestHost.quote
             0%nat (TestHost.world0 false)
             {| formatted := (62 :: 32 :: scenario1)%N; cursorOffset := 5 |}
             eq_refl Hdiff).
  reflexivity.
Defined.

(** The pane of the small host reads back what is set. *)
Lemma pane_laws (e : Editor) : @EditorLaws TestHost.pane e.
Proof.
  split; intros; reflexivity.
Qed.

Lemma formatDocument_restores_view_witness :
  let st := hostState (snd (@awaited TestHost.pane TestHost.quote unit
                              (formatDocument 0%nat) (TestHost.world0 false))) in
  TestHost.buffer st = (62 :: 32 :: scenario1)%N /\
  TestHost.cursor st = {| line := 1; ch := 1 |} /\
  TestHost.scroll st = {| left := 0; top := 120 |}.
Proof.
  assert (Hdiff : (62 :: 32 :: scenario1)%N <> scenario1) by discriminate.
  destruct (@formatDocument_restores_view TestHost.pane TestHost.quote
              0%nat (TestHost.world0 false)
              {| formatted := (62 :: 32 :: scenario1)%N; cursorOffset := 5 |}
              (pane_laws 0%nat) eq_refl Hdiff) as (Hv & Hc & Hs & _).
  split; [exact Hv|]. split; [exact Hc | exact Hs].
Defined.

Lemma formatDocument_offset_in_range_witness :
  exists o k c,
    fst (@formatDocument TestHost.pane 0%nat (TestHost.world0 false))
    = AwaitFormatWithCursor scenario1 o k /\
    opt_cursorOffset o = Some c /\
    0 <= c <= len scenario1 /\
    cursorOffsetToPosition scenario1 c = {| line := 1; ch := 1 |}.
Proof.
  exact (@formatDocument_offset_in_range TestHost.pane 0%nat
           (TestHost.world0 false) eq_refl).
Defined.

Lemma save_hook_is_transparent_witness :
  @wrappedSave TestHost.pane hostSave (TestHost.world0 false)
  = hostSave (TestHost.world0 false) /\
  @wrappedSave TestHost.pane hostSave blurredWorld
  = hostSave (after blurredWorld (hostState blurredWorld) [GetActiveViewOfType]).
Proof.
  split.
  - apply (@save_hook_is_transparent TestHost.pane). reflexivity.
  - apply (@save_hook_is_transparent TestHost.pane); reflexivity.
Defined.

(** * Columns behind the end of a line *)

(** A line starts where the line before it ends, behind its newline. *)
Lemma lineStart_next (b ln : jsstring) (l : Z) :
  0 <= l ->
  nth_error (split_nl b) (Z.to_nat l) = Some ln ->
  lineStart b (l + 1) = lineStart b l + len ln + 1.
Proof.
  intros Hl Hn. unfold lineStart.
  replace (Z.to_nat (l + 1)) with (S (Z.to_nat l)) by lia.
  revert Hn. generalize (Z.to_nat l) as n. generalize (split_nl b) as ls.
  induction ls as [|x ls IH]; intros [|n] Hn; simpl in Hn; try discriminate.
  - injection Hn as ->. simpl. lia.
  - specialize (IH n Hn). simpl in IH |- *. lia.
Qed.

(** X16: positions are not normalised: the column one behind the end of a
    line that is not the last has the offset of the start of the next line,
    and the way back from that offset gives the start of the next line, not
    the position that was put in. *)
Theorem toOffset_column_overflow (b ln : jsstring) (l : Z) :
  0 <= l ->
  nth_error (split_nl b) (Z.to_nat l) = Some ln ->
  l + 1 < len (split_nl b) ->
  positionToCursorOffset b {| line := l; ch := len ln + 1 |}
  = positionToCursorOffset b {| line := l + 1; ch := 0 |} /\
  cursorOffsetToPosition b
    (positionToCursorOffset b {| line := l; ch := len ln + 1 |})
  = {| line := l + 1; ch := 0 |}.
Proof.
  intros Hl Hn Hnext.
  assert (Heq : positionToCursorOffset b {| line := l; ch := len ln + 1 |}
                = positionToCursorOffset b {| line := l + 1; ch := 0 |}).
  { rewrite !toOffset_closed_form by (cbn [line]; lia). cbn [line ch].
    rewrite (lineStart_next b ln l Hl Hn). lia. }
  split; [exact Heq|]. rewrite Heq.
  apply valid_offset_inverse. unfold validPosition. cbn [line ch].
  destruct (nth_error (split_nl b) (Z.to_nat (l + 1))) as [ln'|] eqn:E.
  - pose proof (len_nonneg ln').
    apply andb_true_iff. split; [apply Z.leb_le; lia|].
    apply andb_true_iff. split; apply Z.leb_le; lia.
  - apply nth_error_None in E. unfold len in Hnext. lia.
Qed.

Lemma toOffset_column_overflow_witness :
  positionToCursorOffset scenario1 {| line := 0; ch := 2 |}
  = positionToCursorOffset scenario1 {| line := 1; ch := 0 |} /\
  cursorOffsetToPosition scenario1
    (positionToCursorOffset scenario1 {| line := 0; ch := 2 |})
  = {| line := 1; ch := 0 |}.
Proof.
  assert (Hnext : 0 + 1 < len (split_nl scenario1)) by (cbn; lia).
  exact (toOffset_column_overflow scenario1 [97%N] 0 (Z.le_refl 0) eq_refl Hnext).
Defined.
